(** * Voice-chat signaling server: channel registry, presence table, admission

    A shallow embedding of the channel store ([channelsStore.js]: [slugify],
    [createChannel], [updateChannel], [saveChannelsToDisk],
    [loadChannelsFromDisk]), of the configuration module ([getEnvNumber]) and
    of the socket server with channels ([buildChannelsState], the REST
    handlers, the [join-room], [signal] and [disconnect] handlers), and of
    the older room server [src/server.js], which has no channel registry
    ([POST /rooms], [GET /rooms/:roomId] and its socket handlers).

    Conventions.
    - A JavaScript string is the list of its UTF-16 code units.
    - A JavaScript number is [NaN], an infinity, or the exact rational value
      of a finite double.  The code only compares numbers and tests them for
      truthiness, so no rounding is involved.
    - A JavaScript [Map] is an association list in insertion order: [set] on
      a present key replaces the value in place, on a fresh key appends.
      Keys are compared as [Map] compares them, so the number 5 and the
      string ["5"] are two keys.
    - An exception is an [outcome]; the state reached before the throw is
      kept, as in JavaScript.
    - The engine's tables and sources that are not code of the repository
      (Unicode case mapping, [Math.random], the conversions between strings
      and numbers) are the fields of the class [Host]. *)

From Stdlib Require Import String Ascii.
From Stdlib Require Import List Bool Arith NArith ZArith QArith Lia.
Import ListNotations.

Close Scope Q_scope.
Open Scope string_scope.
Open Scope list_scope.
Set Warnings "-register-all".

(** ** Strings *)

Definition jsstring := list N.

Definition str (s : string) : jsstring :=
  map N_of_ascii (list_ascii_of_string s).

Fixpoint jsstring_eqb (a b : jsstring) : bool :=
  match a, b with
  | [], [] => true
  | x :: a', y :: b' => N.eqb x y && jsstring_eqb a' b'
  | _, _ => false
  end.

(** [!s] for a string: only the empty string is falsy. *)
Definition is_empty (s : jsstring) : bool :=
  match s with [] => true | _ :: _ => false end.

(** WhiteSpace and LineTerminator code units, the ones [String.prototype.trim]
    strips. *)
Definition is_ws (c : N) : bool :=
  (((9 <=? c) && (c <=? 13)) || (c =? 32) || (c =? 160) || (c =? 5760)
   || ((8192 <=? c) && (c <=? 8202)) || (c =? 8232) || (c =? 8233)
   || (c =? 8239) || (c =? 8287) || (c =? 12288) || (c =? 65279))%N.

Fixpoint trimStart (s : jsstring) : jsstring :=
  match s with
  | [] => []
  | c :: s' => if is_ws c then trimStart s' else s
  end.

Definition trimEnd (s : jsstring) : jsstring := rev (trimStart (rev s)).

Definition trim (s : jsstring) : jsstring := trimEnd (trimStart s).

(** [s.slice(from, to)] for non-negative bounds. *)
Definition slice (from to : nat) (s : jsstring) : jsstring :=
  firstn (to - from) (skipn from s).

(** ** Numbers *)

Inductive jsnum : Type :=
| NaN
| PInf
| NInf
| Fin (q : Q).

Definition num_of_Z (z : Z) : jsnum := Fin (inject_Z z).
Definition num_of_nat (n : nat) : jsnum := num_of_Z (Z.of_nat n).

(** [n > 0]. *)
Definition num_gt0 (n : jsnum) : bool :=
  match n with
  | PInf => true
  | Fin q => (0 <? Qnum q)%Z
  | NaN | NInf => false
  end.

(** Truthiness of a number: [0] and [NaN] are falsy. *)
Definition num_truthy (n : jsnum) : bool :=
  match n with
  | NaN => false
  | Fin q => negb (Qnum q =? 0)%Z
  | PInf | NInf => true
  end.

(** [Number.isFinite(n)]. *)
Definition isFinite (n : jsnum) : bool :=
  match n with Fin _ => true | _ => false end.

(** [a >= b]. *)
Definition num_ge (a b : jsnum) : bool :=
  match a, b with
  | NaN, _ | _, NaN => false
  | PInf, _ => true
  | _, NInf => true
  | NInf, _ => false
  | _, PInf => false
  | Fin x, Fin y => Qle_bool y x
  end.

(** [a === b] on numbers. *)
Definition num_eqb (a b : jsnum) : bool :=
  match a, b with
  | PInf, PInf | NInf, NInf => true
  | Fin x, Fin y => Qeq_bool x y
  | _, _ => false
  end.

(** [a || b] on numbers. *)
Definition num_or (a b : jsnum) : jsnum :=
  if num_truthy a then a else b.

Definition ten : jsnum := num_of_Z 10.

(** ** Maps

    A [Map] is an association list in insertion order. The maps of the
    servers are keyed by strings ([jsmap]). The registry map is looked up by
    string too, but its loader calls [channels.set(ch.id, ...)] with the raw
    value of the file, so its keys are values ([key]): a string, a number,
    a boolean, or an array or object, which is a key by its identity. *)

Inductive key : Type :=
| KNull
| KBool (b : bool)
| KNum (n : jsnum)
| KStr (s : jsstring)
| KRef (r : nat).

(** SameValueZero, the comparison of [Map] keys. *)
Definition sameValueZero (a b : key) : bool :=
  match a, b with
  | KNull, KNull => true
  | KBool x, KBool y => Bool.eqb x y
  | KNum NaN, KNum NaN => true
  | KNum x, KNum y => num_eqb x y
  | KStr x, KStr y => jsstring_eqb x y
  | KRef x, KRef y => Nat.eqb x y
  | _, _ => false
  end.

(** Keys that can be compared and that strings are among. *)
Class Keys (K : Type) : Type := {
  same : K -> K -> bool;
  of_string : jsstring -> K
}.

#[export] Instance string_keys : Keys jsstring :=
  {| same := jsstring_eqb; of_string := fun s => s |}.

#[export] Instance value_keys : Keys key :=
  {| same := sameValueZero; of_string := KStr |}.

(** What the proofs use of the keys: a key is the same as the key of a
    string only when it is that key, and two strings are two keys. *)
Class KeysLaws (K : Type) {HK : Keys K} : Prop := {
  same_of_string :
    forall (k : K) (s : jsstring), same k (of_string s) = true <-> k = of_string s;
  of_string_inj :
    forall a b : jsstring, @of_string K HK a = of_string b -> a = b
}.

Section JsMap.
Context {K V : Type} {HK : Keys K}.

Fixpoint get (m : list (K * V)) (k : jsstring) : option V :=
  match m with
  | [] => None
  | (k', v) :: m' => if same k' (of_string k) then Some v else get m' k
  end.

Definition has (m : list (K * V)) (k : jsstring) : bool :=
  match get m k with Some _ => true | None => false end.

Fixpoint set (m : list (K * V)) (k : jsstring) (v : V) : list (K * V) :=
  match m with
  | [] => [(of_string k, v)]
  | (k', v') :: m' =>
      if same k' (of_string k) then (k', v) :: m' else (k', v') :: set m' k v
  end.

(** [m.set(k, v)] for a key that need not be a string. *)
Fixpoint setKey (m : list (K * V)) (k : K) (v : V) : list (K * V) :=
  match m with
  | [] => [(k, v)]
  | (k', v') :: m' =>
      if same k' k then (k', v) :: m' else (k', v') :: setKey m' k v
  end.

Fixpoint delete (m : list (K * V)) (k : jsstring) : list (K * V) :=
  match m with
  | [] => []
  | (k', v') :: m' =>
      if same k' (of_string k) then m' else (k', v') :: delete m' k
  end.

Definition keys (m : list (K * V)) : list K := map fst m.
Definition values (m : list (K * V)) : list V := map snd m.
Definition size (m : list (K * V)) : nat := List.length m.

End JsMap.

Definition jsmap (V : Type) : Type := list (jsstring * V).

(** ** Values exchanged with the outside

    The tree that [JSON.parse] yields, also used for the payloads handed to
    [emit] and [res.json].  Object keys are property names of the source. *)

Inductive json : Type :=
| JNull
| JBool (b : bool)
| JNum (n : jsnum)
| JStr (s : jsstring)
| JArr (l : list json)
| JObj (fields : list (string * json)).

Fixpoint lookup (fields : list (string * json)) (k : string) : option json :=
  match fields with
  | [] => None
  | (k', v) :: fs => if String.eqb k' k then Some v else lookup fs k
  end.

(** [j.k]; [None] is [undefined]. Primitives and arrays have none of the
    properties the source reads. *)
Definition prop (j : json) (k : string) : option json :=
  match j with
  | JObj fields => lookup fields k
  | _ => None
  end.

Definition truthy (v : option json) : bool :=
  match v with
  | None | Some JNull => false
  | Some (JBool b) => b
  | Some (JNum n) => num_truthy n
  | Some (JStr s) => negb (is_empty s)
  | Some (JArr _) | Some (JObj _) => true
  end.

(** ** The host environment *)

Class Host : Type := {
  (** [String.prototype.toLowerCase]. *)
  toLowerCase : jsstring -> jsstring;
  (** The regular expression engine's Canonicalize for the [i] flag. *)
  canonicalize : N -> N;
  (** [Math.random().toString(36)] at the n-th call of [Math.random]. *)
  random36 : nat -> jsstring;
  (** [Number(s)] for a string [s]. *)
  stringToNumber : jsstring -> jsnum;
  (** [String(n)] for a number [n]. *)
  numberToString : jsnum -> jsstring
}.

(** ** Exceptions *)

Inductive exn : Type :=
| NAME_REQUIRED   (* new Error('NAME_REQUIRED') *)
| FsError.        (* thrown by fs.mkdirSync / fs.writeFileSync *)

Inductive outcome (A : Type) : Type :=
| Returned (a : A)
| Threw (e : exn).

Arguments Returned {A} a.
Arguments Threw {A} e.

(** ** config.js *)

Module Config.
Record t : Type := mk {
  port : jsnum;
  maxRoomUsers : jsnum;
  allowedOrigins : list jsstring
}.
End Config.

(** [s.split(',')]. *)
Fixpoint split_comma (cur : jsstring) (s : jsstring) : list jsstring :=
  match s with
  | [] => [rev cur]
  | c :: s' =>
      if (c =? 44)%N then rev cur :: split_comma [] s'
      else split_comma (c :: cur) s'
  end.

Section ConfigModule.
Context {H : Host}.
Variable env : string -> option jsstring.

Definition getEnvNumber (name : string) (defaultValue : jsnum) : jsnum :=
  match env name with
  | None => defaultValue
  | Some raw =>
      if is_empty raw then defaultValue
      else
        let n := stringToNumber raw in
        if isFinite n then n else defaultValue
  end.

Definition config : Config.t :=
  {| Config.port := getEnvNumber "PORT" (num_of_Z 3000);
     Config.maxRoomUsers := getEnvNumber "MAX_ROOM_USERS" (num_of_Z 10);
     Config.allowedOrigins :=
       filter (fun s => negb (is_empty s))
         (map trim
            (split_comma []
               (match env "ALLOWED_ORIGINS" with
                | Some s => if is_empty s then str "*" else s
                | None => str "*"
                end))) |}.

End ConfigModule.

(** ** channelsStore.js *)

(** A channel record. [createdAt] is a string in the channels the store
    makes; in a channel that comes from the file it is whatever truthy value
    the file has there. *)
Module Channel.
Record t : Type := mk {
  id : jsstring;
  name : jsstring;
  maxUsers : jsnum;
  hasPassword : bool;
  passwordHash : option jsstring;
  createdAt : json
}.
End Channel.

(** The map [channels]. *)
Definition registry : Type := list (key * Channel.t).

(** What [JSON.parse] makes of the text of [channels.json]. *)
Inductive content : Type :=
| Unparsable
| Parsed (j : json).

(** The module's map [channels], the data directory and file, the number
    of [Math.random] calls made, and the condition of the file system:
    whether it accepts writes and, when it does not, whether
    [fs.writeFileSync] is refused when it opens the file or fails after it
    has opened and truncated it. *)
Module Store.
Record t : Type := mk {
  channels : registry;
  dataDir : bool;
  channelsFile : option content;
  writable : bool;
  draws : nat;
  truncates : bool
}.
End Store.

Definition with_channels (st : Store.t) (chs : registry) : Store.t :=
  {| Store.channels := chs;
     Store.dataDir := Store.dataDir st;
     Store.channelsFile := Store.channelsFile st;
     Store.writable := Store.writable st;
     Store.draws := Store.draws st;
     Store.truncates := Store.truncates st |}.

Definition with_draws (st : Store.t) (d : nat) : Store.t :=
  {| Store.channels := Store.channels st;
     Store.dataDir := Store.dataDir st;
     Store.channelsFile := Store.channelsFile st;
     Store.writable := Store.writable st;
     Store.draws := d;
     Store.truncates := Store.truncates st |}.

Definition with_file (st : Store.t) (file : option content) : Store.t :=
  {| Store.channels := Store.channels st;
     Store.dataDir := Store.dataDir st;
     Store.channelsFile := file;
     Store.writable := Store.writable st;
     Store.draws := Store.draws st;
     Store.truncates := Store.truncates st |}.

(** [ensureDataDir]. *)
Definition ensureDataDir (st : Store.t) : outcome unit * Store.t :=
  if Store.dataDir st then (Returned tt, st)
  else if Store.writable st then
    (Returned tt,
     {| Store.channels := Store.channels st;
        Store.dataDir := true;
        Store.channelsFile := Store.channelsFile st;
        Store.writable := Store.writable st;
        Store.draws := Store.draws st;
        Store.truncates := Store.truncates st |})
  else (Threw FsError, st).

(** [JSON.stringify] writes a number that is not finite as [null]. *)
Definition json_of_num (n : jsnum) : json :=
  if isFinite n then JNum n else JNull.

(** What [JSON.parse] reads back from [JSON.stringify] of a value that
    came out of [JSON.parse]: the same value, the numbers that are not
    finite replaced by [null]. *)
Fixpoint json_of_json (j : json) : json :=
  match j with
  | JNum n => json_of_num n
  | JArr l => JArr (map json_of_json l)
  | JObj fields =>
      JObj ((fix each (fs : list (string * json)) : list (string * json) :=
               match fs with
               | [] => []
               | (k, v) :: fs' => (k, json_of_json v) :: each fs'
               end) fields)
  | _ => j
  end.

(** The tree [JSON.parse] reads back from [JSON.stringify] of a channel:
    a property whose value is [undefined] is left out. *)
Definition json_of_channel (ch : Channel.t) : json :=
  JObj ([("id", JStr (Channel.id ch));
         ("name", JStr (Channel.name ch));
         ("maxUsers", json_of_num (Channel.maxUsers ch));
         ("hasPassword", JBool (Channel.hasPassword ch))]
        ++ match Channel.passwordHash ch with
           | Some s => [("passwordHash", JStr s)]
           | None => []
           end
        ++ [("createdAt", json_of_json (Channel.createdAt ch))]).

(** [saveChannelsToDisk]. A write that fails either leaves the file as it
    was or leaves it cut short, which [JSON.parse] does not accept: every
    proper prefix of the text lacks the closing bracket. *)
Definition saveChannelsToDisk (st : Store.t) : outcome unit * Store.t :=
  match ensureDataDir st with
  | (Threw e, st1) => (Threw e, st1)
  | (Returned _, st1) =>
      let arr := values (Store.channels st1) in
      if Store.writable st1 then
        (Returned tt,
         with_file st1 (Some (Parsed (JArr (map json_of_channel arr)))))
      else if Store.truncates st1 then
        (Threw FsError, with_file st1 (Some Unparsable))
      else (Threw FsError, st1)
  end.

(** [getChannels] and [getChannel]. *)
Definition getChannels (st : Store.t) : list Channel.t :=
  values (Store.channels st).

Definition getChannel (st : Store.t) (id : jsstring) : option Channel.t :=
  get (Store.channels st) id.

Definition dash : N := 45%N.

(** The characters of the class [a-z0-9а-яё]. *)
Definition class_chars : list N :=
  map N.of_nat (seq 97 26 ++ seq 48 10 ++ seq 1072 32 ++ [1105]).

(** [s.replace(/c+/g, rep)] for a one-character pattern [c] given by the
    predicate [p]: every maximal run of matching characters becomes [rep]. *)
Fixpoint replaceRuns (p : N -> bool) (rep : jsstring) (inRun : bool)
    (s : jsstring) : jsstring :=
  match s with
  | [] => []
  | c :: s' =>
      if p c then
        if inRun then replaceRuns p rep true s'
        else rep ++ replaceRuns p rep true s'
      else c :: replaceRuns p rep false s'
  end.

Definition stripLeadingDash (s : jsstring) : jsstring :=
  match s with
  | c :: s' => if (c =? dash)%N then s' else s
  | [] => []
  end.

(** [s.replace(/^-|-$/g, '')]. *)
Definition stripDashEnds (s : jsstring) : jsstring :=
  rev (stripLeadingDash (rev (stripLeadingDash s))).

Definition or_empty (s : option jsstring) : jsstring :=
  match s with Some s => s | None => [] end.

(** [p ? String(p) : null] for an optional string. *)
Definition nonempty (s : option jsstring) : option jsstring :=
  match s with
  | Some (c :: s') => Some (c :: s')
  | _ => None
  end.

Definition isSome {A : Type} (o : option A) : bool :=
  match o with Some _ => true | None => false end.

Module CreateParams.
Record t : Type := mk {
  name : option jsstring;
  maxUsers : option jsnum;
  password : option jsstring
}.
End CreateParams.

(** In a patch a field that is [undefined] is [None]; a password that is
    [null] is [Some None]. *)
Module Patch.
Record t : Type := mk {
  name : option jsstring;
  maxUsers : option jsnum;
  password : option (option jsstring)
}.
End Patch.

(** [Number(v)] for an optional number: [undefined] gives [NaN]. *)
Definition Number_opt (v : option jsnum) : jsnum :=
  match v with Some n => n | None => NaN end.

Section ChannelsStore.
Context {H : Host}.

(** Membership in the class under the [i] flag. *)
Definition in_class (c : N) : bool :=
  existsb (fun d => (canonicalize d =? canonicalize c)%N) class_chars.

(** [slugify]; the second component is the number of [Math.random] calls
    made so far. *)
Definition slugify (name : jsstring) (d : nat) : jsstring * nat :=
  let s :=
    stripDashEnds
      (replaceRuns (N.eqb dash) [dash] false
         (replaceRuns (fun c => negb (in_class c)) [dash] false
            (toLowerCase name))) in
  if is_empty s then (str "channel-" ++ slice 2 8 (random36 d), S d)
  else (s, d).

(** The loop [while (channels.has(id)) id = `${id}-${...slice(2, 5)}`].
    [None] when [fuel] iterations were not enough. *)
Fixpoint freshId (fuel : nat) (chs : registry) (id : jsstring)
    (d : nat) : option (jsstring * nat) :=
  if has chs id then
    match fuel with
    | O => None
    | S fuel' =>
        freshId fuel' chs (id ++ [dash] ++ slice 2 5 (random36 d)) (S d)
    end
  else Some (id, d).

(** [createChannel]. The loop is given as many iterations as the map has
    keys, which is always enough ([createChannel_returns] below). *)
Definition createChannel (params : CreateParams.t) (now : jsstring)
    (st : Store.t) : option (outcome Channel.t * Store.t) :=
  let name := trim (or_empty (CreateParams.name params)) in
  if is_empty name then Some (Threw NAME_REQUIRED, st)
  else
    let '(id0, d0) := slugify name (Store.draws st) in
    match freshId (size (Store.channels st)) (Store.channels st) id0 d0 with
    | None => None
    | Some (id, d) =>
        let maxUsers :=
          if num_gt0 (Number_opt (CreateParams.maxUsers params))
          then Number_opt (CreateParams.maxUsers params)
          else ten in
        let password := nonempty (CreateParams.password params) in
        let channel :=
          {| Channel.id := id;
             Channel.name := name;
             Channel.maxUsers := maxUsers;
             Channel.hasPassword := isSome password;
             Channel.passwordHash := password;
             Channel.createdAt := JStr now |} in
        let st1 :=
          with_draws (with_channels st (set (Store.channels st) id channel)) d in
        match saveChannelsToDisk st1 with
        | (Threw e, st2) => Some (Threw e, st2)
        | (Returned _, st2) => Some (Returned channel, st2)
        end
    end.

(** [updateChannel]; [Returned None] is the [null] answer. *)
Definition updateChannel (id : jsstring) (patch : Patch.t) (st : Store.t)
    : outcome (option Channel.t) * Store.t :=
  match get (Store.channels st) id with
  | None => (Returned None, st)
  | Some existing =>
      let name1 :=
        match Patch.name patch with
        | Some nm =>
            if is_empty (trim nm) then Channel.name existing else trim nm
        | None => Channel.name existing
        end in
      let maxUsers1 :=
        match Patch.maxUsers patch with
        | Some n =>
            if isFinite n && num_gt0 n then n else Channel.maxUsers existing
        | None => Channel.maxUsers existing
        end in
      let '(hasPassword1, passwordHash1) :=
        match Patch.password patch with
        | Some pw => (isSome (nonempty pw), nonempty pw)
        | None => (Channel.hasPassword existing, Channel.passwordHash existing)
        end in
      let updated :=
        {| Channel.id := Channel.id existing;
           Channel.name := name1;
           Channel.maxUsers := maxUsers1;
           Channel.hasPassword := hasPassword1;
           Channel.passwordHash := passwordHash1;
           Channel.createdAt := Channel.createdAt existing |} in
      match saveChannelsToDisk
              (with_channels st (set (Store.channels st) id updated)) with
      | (Threw e, st2) => (Threw e, st2)
      | (Returned _, st2) => (Returned (Some updated), st2)
      end
  end.

(** [String(j)] for a value that [JSON.parse] gave; [None] when the
    conversion throws. An array is joined with commas, an element [null]
    giving the empty string. An object answers [Object.prototype.toString]
    unless it has a property [toString] of its own: that one is no
    function, [valueOf] gives no primitive, and the conversion throws a
    [TypeError]. *)
Fixpoint String_json (j : json) : option jsstring :=
  match j with
  | JNull => Some (str "null")
  | JBool true => Some (str "true")
  | JBool false => Some (str "false")
  | JNum n => Some (numberToString n)
  | JStr s => Some s
  | JArr l =>
      (fix join (l : list json) : option jsstring :=
         match l with
         | [] => Some []
         | x :: l' =>
             match match x with JNull => Some [] | _ => String_json x end,
                   join l' with
             | Some s, Some r =>
                 Some (match l' with [] => s | _ :: _ => s ++ [44%N] ++ r end)
             | _, _ => None
             end
         end) l
  | JObj fields =>
      match lookup fields "toString" with
      | Some _ => None
      | None => Some (str "[object Object]")
      end
  end.

(** [Number(v)] for a property value; [None] when the conversion throws.
    An array or an object is first made a string. *)
Definition Number_json (v : option json) : option jsnum :=
  match v with
  | None => Some NaN
  | Some JNull => Some (num_of_Z 0)
  | Some (JBool b) => Some (num_of_Z (if b then 1 else 0))
  | Some (JNum n) => Some n
  | Some (JStr s) => Some (stringToNumber s)
  | Some j => option_map stringToNumber (String_json j)
  end.

(** A reference no key of the map is. *)
Definition newRef (chs : registry) : nat :=
  list_max
    (map (fun k => match k with KRef r => S r | _ => 0 end) (keys chs)).

(** The key that [channels.set(ch.id, ...)] stores under: the value of the
    file as it is. An array or an object is a key by its identity, and the
    one the file gave is no key yet. *)
Definition key_of (chs : registry) (id : json) : key :=
  match id with
  | JNull => KNull
  | JBool b => KBool b
  | JNum n => KNum n
  | JStr s => KStr s
  | JArr _ | JObj _ => KRef (newRef chs)
  end.

(** The body of [parsed.forEach(ch => ...)] in [loadChannelsFromDisk];
    [None] when a conversion throws. *)
Definition loadEntry (now : jsstring) (chs : registry) (ch : json)
    : option registry :=
  if truthy (Some ch) && truthy (prop ch "id") && truthy (prop ch "name") then
    match prop ch "id", prop ch "name" with
    | Some id, Some nm =>
        match String_json id, String_json nm,
              Number_json (prop ch "maxUsers"),
              (if truthy (prop ch "passwordHash") then
                 match prop ch "passwordHash" with
                 | Some p => option_map Some (String_json p)
                 | None => Some None
                 end
               else Some None) with
        | Some id', Some name, Some n, Some passwordHash =>
            Some (setKey chs (key_of chs id)
                    {| Channel.id := id';
                       Channel.name := name;
                       Channel.maxUsers := num_or n ten;
                       Channel.hasPassword := truthy (prop ch "hasPassword");
                       Channel.passwordHash := passwordHash;
                       Channel.createdAt :=
                         match prop ch "createdAt" with
                         | Some createdAt =>
                             if truthy (Some createdAt) then createdAt
                             else JStr now
                         | None => JStr now
                         end |})
        | _, _, _, _ => None
        end
    | _, _ => Some chs
    end
  else Some chs.

Fixpoint loadEntries (now : jsstring) (chs : registry) (parsed : list json)
    : option registry :=
  match parsed with
  | [] => Some chs
  | ch :: rest =>
      match loadEntry now chs ch with
      | Some chs' => loadEntries now chs' rest
      | None => None
      end
  end.

Definition seed (now : jsstring) (id : jsstring) (name : jsstring)
    : Channel.t :=
  {| Channel.id := id;
     Channel.name := name;
     Channel.maxUsers := ten;
     Channel.hasPassword := false;
     Channel.passwordHash := None;
     Channel.createdAt := JStr now |}.

Definition setAll (chs : registry) (initial : list Channel.t) : registry :=
  fold_left (fun m ch => set m (Channel.id ch) ch) initial chs.

(** The [catch] branch of [loadChannelsFromDisk]. *)
Definition reseed (now : jsstring) (st : Store.t) : outcome unit * Store.t :=
  let initial :=
    [seed now (str "general") [1054; 1073; 1097; 1080; 1081]%N] in
  saveChannelsToDisk (with_channels st (setAll [] initial)).

(** [loadChannelsFromDisk]. The clock is read once per call. A file that
    cannot be read or parsed and a conversion that throws both end in the
    [catch] branch. The answer is always [Some] ([load_returns] below); the
    type is the one of [createChannel]. *)
Definition loadChannelsFromDisk (now : jsstring) (st : Store.t)
    : option (outcome unit * Store.t) :=
  match ensureDataDir st with
  | (Threw e, st0) => Some (Threw e, st0)
  | (Returned _, st0) =>
      match Store.channelsFile st0 with
      | None =>
          let initial :=
            [seed now (str "dota 2") [1054; 1073; 1097; 1080; 1081]%N;
             seed now (str "coop") [1048; 1075; 1088; 1099]%N;
             seed now (str "squad") [1048; 1075; 1088; 1099]%N] in
          Some (saveChannelsToDisk
                  (with_channels st0 (setAll (Store.channels st0) initial)))
      | Some Unparsable => Some (reseed now st0)
      | Some (Parsed (JArr parsed)) =>
          match loadEntries now (Store.channels st0) parsed with
          | Some chs => Some (Returned tt, with_channels st0 chs)
          | None => Some (reseed now st0)
          end
      | Some (Parsed _) => Some (Returned tt, st0)
      end
  end.

End ChannelsStore.

(** ** server.js (the server with channels) *)

Module Member.
Record t : Type := mk {
  socketId : jsstring;
  name : jsstring;
  joinedAt : jsstring
}.
End Member.

(** The maps [channelMembers] and [socketChannelMap]. A member map is
    referenced from [channelMembers] only, so mutating it in place is
    writing the mutated map back under its channel id. *)
Module Presence.
Record t : Type := mk {
  channelMembers : jsmap (jsmap Member.t);
  socketChannelMap : jsmap jsstring
}.
End Presence.

(** What a handler does to the transport. *)
Inductive target : Type :=
| Socket (socketId : jsstring)                 (* socket.emit *)
| Room (room : jsstring)                       (* io.to(room).emit *)
| RoomExcept (room : jsstring) (socketId : jsstring)  (* socket.to(room).emit *)
| All.                                         (* io.emit *)

Inductive action : Type :=
| Emit (to : target) (event : string) (payload : json)
| Join (socketId : jsstring) (room : jsstring)  (* socket.join *)
| Respond (status : nat) (body : json).         (* res.status(..).json(..) *)

Module JoinPayload.
Record t : Type := mk {
  roomId : option jsstring;
  userName : option jsstring;
  password : option jsstring
}.
End JoinPayload.

Definition publicUser (m : Member.t) : json :=
  JObj [("socketId", JStr (Member.socketId m));
        ("name", JStr (Member.name m))].

Definition onlineUsersOf (members : option (jsmap Member.t)) : list json :=
  match members with
  | Some members => map publicUser (values members)
  | None => []
  end.

Definition publicChannel (ch : Channel.t) (onlineUsers : list json) : json :=
  JObj [("id", JStr (Channel.id ch));
        ("name", JStr (Channel.name ch));
        ("maxUsers", JNum (Channel.maxUsers ch));
        ("hasPassword", JBool (Channel.hasPassword ch));
        ("onlineCount", JNum (num_of_nat (List.length onlineUsers)));
        ("onlineUsers", JArr onlineUsers)].

(** [buildChannelsState]. *)
Definition buildChannelsState (st : Store.t) (p : Presence.t) : list json :=
  map (fun ch =>
         publicChannel ch
           (onlineUsersOf (get (Presence.channelMembers p) (Channel.id ch))))
      (getChannels st).

(** [broadcastChannelsState]. *)
Definition broadcastChannelsState (st : Store.t) (p : Presence.t) : action :=
  Emit All "channels-state" (JArr (buildChannelsState st p)).

Definition error_body (code : string) : json :=
  JObj [("error", JStr (str code))].

Definition join_error (socketId : jsstring) (code : string) : action :=
  Emit (Socket socketId) "join-error" (JObj [("code", JStr (str code))]).

(** [GET /channels] and [GET /channels/:id]. *)
Definition get_channels (st : Store.t) (p : Presence.t) : action :=
  Respond 200 (JArr (buildChannelsState st p)).


(** The default display name, [Без имени]. *)
Definition noName : jsstring :=
  [1041; 1077; 1079; 32; 1080; 1084; 1077; 1085; 1080]%N.

Section Server.
Context {H : Host}.
Variable cfg : Config.t.

(** [POST /channels]. *)
Definition post_channels (body : CreateParams.t) (now : jsstring)
    (st : Store.t) (p : Presence.t) : option (list action * Store.t) :=
  match createChannel body now st with
  | None => None
  | Some (Returned channel, st') =>
      Some ([broadcastChannelsState st' p;
             Respond 201 (publicChannel channel [])], st')
  | Some (Threw NAME_REQUIRED, st') =>
      Some ([Respond 400 (error_body "NAME_REQUIRED")], st')
  | Some (Threw _, st') =>
      Some ([Respond 500 (error_body "INTERNAL_ERROR")], st')
  end.

(** On [connection]. *)
Definition on_connection (socketId : jsstring) (st : Store.t)
    (p : Presence.t) : list action :=
  [Emit (Socket socketId) "channels-state" (JArr (buildChannelsState st p))].

(** [channel.maxUsers || config.maxRoomUsers]. *)
Definition effectiveMaxUsers (channel : Channel.t) : jsnum :=
  num_or (Channel.maxUsers channel) (Config.maxRoomUsers cfg).

(** The password test of the [join-room] handler: [true] when the join is
    to be refused. *)
Definition wrongPassword (channel : Channel.t) (password : option jsstring)
    : bool :=
  if Channel.hasPassword channel then
    let provided := or_empty (nonempty password) in
    is_empty provided
    || negb (jsstring_eqb provided (or_empty (Channel.passwordHash channel)))
  else false.

(** The list [others] built by [members.forEach]. *)
Definition othersOf (socketId : jsstring) (members : jsmap Member.t)
    : list json :=
  map publicUser
    (filter (fun m => negb (jsstring_eqb (Member.socketId m) socketId))
       (values members)).

(** The [join-room] handler of the socket [socketId]. *)
Definition join_room (socketId : jsstring) (now : jsstring)
    (payload : JoinPayload.t) (st : Store.t) (p : Presence.t)
    : Presence.t * list action :=
  let channelId := trim (or_empty (JoinPayload.roomId payload)) in
  if is_empty channelId then (p, [])
  else
    match getChannel st channelId with
    | None => (p, [join_error socketId "CHANNEL_NOT_FOUND"])
    | Some channel =>
        let '(members, cm) :=
          match get (Presence.channelMembers p) channelId with
          | Some members => (members, Presence.channelMembers p)
          | None => ([], set (Presence.channelMembers p) channelId [])
          end in
        let p1 :=
          {| Presence.channelMembers := cm;
             Presence.socketChannelMap := Presence.socketChannelMap p |} in
        if num_ge (num_of_nat (size members)) (effectiveMaxUsers channel) then
          (p1, [join_error socketId "ROOM_FULL"])
        else if wrongPassword channel (JoinPayload.password payload) then
          (p1, [join_error socketId "WRONG_PASSWORD"])
        else
          let member :=
            {| Member.socketId := socketId;
               Member.name :=
                 match nonempty (JoinPayload.userName payload) with
                 | Some n => n
                 | None => noName
                 end;
               Member.joinedAt := now |} in
          let members' := set members socketId member in
          let p2 :=
            {| Presence.channelMembers := set cm channelId members';
               Presence.socketChannelMap :=
                 set (Presence.socketChannelMap p) socketId channelId |} in
          (p2,
           [Join socketId channelId;
            Emit (Socket socketId) "room-users"
              (JObj [("roomId", JStr channelId);
                     ("users", JArr (othersOf socketId members'));
                     ("maxUsers", JNum (effectiveMaxUsers channel))]);
            Emit (RoomExcept channelId socketId) "user-joined"
              (JObj [("socketId", JStr socketId);
                     ("name", JStr (Member.name member))]);
            broadcastChannelsState st p2])
    end.

(** The [signal] handler. *)
Definition signal (socketId : jsstring) (roomId : option json)
    (targetSocketId : option jsstring) (data : option json) : list action :=
  match roomId, nonempty targetSocketId, data with
  | Some r, Some t, Some d =>
      if truthy roomId && truthy data then
        [Emit (Room t) "signal"
           (JObj [("from", JStr socketId); ("roomId", r); ("data", d)])]
      else []
  | _, _, _ => []
  end.

(** The [disconnect] handler. *)
Definition disconnect (socketId : jsstring) (st : Store.t) (p : Presence.t)
    : Presence.t * list action :=
  match nonempty (get (Presence.socketChannelMap p) socketId) with
  | None => (p, [])
  | Some channelId =>
      let '(cm, notice) :=
        match get (Presence.channelMembers p) channelId with
        | Some members =>
            if has members socketId then
              let members' := delete members socketId in
              let cm1 := set (Presence.channelMembers p) channelId members' in
              (if (size members' =? 0)%nat then delete cm1 channelId else cm1,
               [Emit (RoomExcept channelId socketId) "user-left"
                  (JObj [("socketId", JStr socketId)])])
            else (Presence.channelMembers p, [])
        | None => (Presence.channelMembers p, [])
        end in
      let p' :=
        {| Presence.channelMembers := cm;
           Presence.socketChannelMap :=
             delete (Presence.socketChannelMap p) socketId |} in
      (p', notice ++ [broadcastChannelsState st p'])
  end.

(** A run of socket events against a fixed registry. *)
Inductive event : Type :=
| EvJoin (socketId : jsstring) (now : jsstring) (payload : JoinPayload.t)
| EvDisconnect (socketId : jsstring).

Definition handle (st : Store.t) (p : Presence.t) (e : event)
    : Presence.t * list action :=
  match e with
  | EvJoin socketId now payload => join_room socketId now payload st p
  | EvDisconnect socketId => disconnect socketId st p
  end.

Definition run (st : Store.t) (p : Presence.t) (es : list event)
    : Presence.t :=
  fold_left (fun p e => fst (handle st p e)) es p.

End Server.

(** ** A concrete host

    Case tables for Basic Latin and the Russian alphabet, unsigned decimal
    literals for [Number], decimal digits for [String], and a fixed
    sequence for [Math.random]. Used to evaluate the handlers on concrete
    requests. *)

Definition basicLower (c : N) : N :=
  (if ((65 <=? c) && (c <=? 90)) || ((1040 <=? c) && (c <=? 1071))
   then c + 32
   else if c =? 1025 then 1105 else c)%N.

Definition basicUpper (c : N) : N :=
  (if ((97 <=? c) && (c <=? 122)) || ((1072 <=? c) && (c <=? 1103))
   then c - 32
   else if c =? 1105 then 1025 else c)%N.

Fixpoint decimal (acc : Z) (s : jsstring) : jsnum :=
  match s with
  | [] => num_of_Z acc
  | c :: s' =>
      if ((48 <=? c) && (c <=? 57))%N
      then decimal (10 * acc + Z.of_N (c - 48)) s'
      else NaN
  end.

Fixpoint digits (fuel : nat) (n : N) (acc : jsstring) : jsstring :=
  match fuel with
  | O => acc
  | S fuel' =>
      let acc' := (48 + n mod 10)%N :: acc in
      if (n / 10 =? 0)%N then acc' else digits fuel' (n / 10) acc'
  end.

(** The decimal digits of an integer; of another rational, the digits of
    its integer part (the scenarios print integers only). *)
Definition printNumber (n : jsnum) : jsstring :=
  match n with
  | NaN => str "NaN"
  | PInf => str "Infinity"
  | NInf => str "-Infinity"
  | Fin q =>
      let z := (Qnum q / Zpos (Qden q))%Z in
      (if (z <? 0)%Z then str "-" else [])
      ++ digits (S (N.to_nat (N.log2 (Z.abs_N z)))) (Z.abs_N z) []
  end.

Definition basicHost : Host :=
  {| toLowerCase := map basicLower;
     canonicalize := basicUpper;
     random36 := fun n => str "0.k3x9q2" ++ [N.of_nat (97 + n mod 26)];
     stringToNumber := decimal 0;
     numberToString := printNumber |}.

(** Current occupants of a channel, as the [join-room] handler reads them:
    a channel without a member map has none. *)
Definition membersOf (p : Presence.t) (channelId : jsstring)
    : jsmap Member.t :=
  match get (Presence.channelMembers p) channelId with
  | Some members => members
  | None => []
  end.

(** The store when the module is loaded, before its top-level call of
    [loadChannelsFromDisk]: an empty map over the given file system. *)
Definition fresh_on (truncates : bool) (dataDir : bool)
    (file : option content) (writable : bool) (draws : nat) : Store.t :=
  {| Store.channels := [];
     Store.dataDir := dataDir;
     Store.channelsFile := file;
     Store.writable := writable;
     Store.draws := draws;
     Store.truncates := truncates |}.

(** The same over a file system that, when it does not accept a write,
    refuses to open the file. *)
Definition fresh (dataDir : bool) (file : option content) (writable : bool)
    (draws : nat) : Store.t :=
  fresh_on false dataDir file writable draws.

(** Restarting the process on the file system a store leaves behind. *)
Definition restart (st : Store.t) : Store.t :=
  fresh_on (Store.truncates st) (Store.dataDir st) (Store.channelsFile st)
    (Store.writable st) (Store.draws st).

(** Calls into the store, and the file system turning (un)writable. *)
Inductive call : Type :=
| Create (params : CreateParams.t) (now : jsstring)
| Update (id : jsstring) (patch : Patch.t)
| Writable (b : bool).

Section Calls.
Context {H : Host}.

Definition exec (st : Store.t) (c : call) : option Store.t :=
  match c with
  | Create params now => option_map snd (createChannel params now st)
  | Update id patch => Some (snd (updateChannel id patch st))
  | Writable b =>
      Some {| Store.channels := Store.channels st;
              Store.dataDir := Store.dataDir st;
              Store.channelsFile := Store.channelsFile st;
              Store.writable := b;
              Store.draws := Store.draws st;
              Store.truncates := Store.truncates st |}
  end.

Fixpoint execAll (st : Store.t) (cs : list call) : option Store.t :=
  match cs with
  | [] => Some st
  | c :: cs' =>
      match exec st c with
      | Some st' => execAll st' cs'
      | None => None
      end
  end.

End Calls.

(** The calls that add a channel: a [createChannel] whose name is not
    empty once trimmed. *)
Definition adds (c : call) : bool :=
  match c with
  | Create params _ =>
      negb (is_empty (trim (or_empty (CreateParams.name params))))
  | _ => false
  end.

(** ** Concrete scenarios

    A process started without a data directory (so seeded with the three
    default channels), under the default configuration. *)

Definition demo_cfg : Config.t := @config basicHost (fun _ => None).

Definition demo_boot : Store.t :=
  match @loadChannelsFromDisk basicHost (str "2024-01-01")
          (fresh false None true 0) with
  | Some (_, st) => st
  | None => fresh false None true 0
  end.

(** The registry after [POST /channels] with
    [{name: "Duo", maxUsers: 1, password: "pw"}]. *)
Definition demo_duo_params : CreateParams.t :=
  CreateParams.mk (Some (str "Duo")) (Some (num_of_Z 1)) (Some (str "pw")).

Definition demo_duo : Store.t :=
  match @createChannel basicHost demo_duo_params (str "2024-01-02") demo_boot with
  | Some (_, st) => st
  | None => demo_boot
  end.

Definition demo_join (room name : string) (password : option jsstring)
    : JoinPayload.t :=
  JoinPayload.mk (Some (str room)) (Some (str name)) password.

Definition no_presence : Presence.t := Presence.mk [] [].

(** [socket-1] sits in [duo], which is then full. *)
Definition demo_duo_full : Presence.t :=
  fst (join_room demo_cfg (str "socket-1") (str "2024-01-03")
         (demo_join "duo" "Ann" (Some (str "pw"))) demo_duo no_presence).

(** [socket-1] sits in [coop]. *)
Definition demo_coop_one : Presence.t :=
  fst (join_room demo_cfg (str "socket-1") (str "2024-01-03")
         (demo_join "coop" "Ann" None) demo_boot no_presence).

(** ** Invariants *)

(** Every channel is stored under its own id, and no key occurs twice. *)
Definition keyed (chs : registry) : Prop :=
  NoDup (keys chs)
  /\ Forall (fun kv => fst kv = of_string (Channel.id (snd kv))) chs.

(** An entry of the file whose [id], when the loader takes it, is a
    string; a file all of whose entries are such, as the files that
    [saveChannelsToDisk] writes are. *)
Definition string_id (ch : json) : Prop :=
  truthy (prop ch "id") = true -> exists s, prop ch "id" = Some (JStr s).

Definition string_ids (file : option content) : Prop :=
  match file with
  | Some (Parsed (JArr parsed)) => Forall string_id parsed
  | _ => True
  end.

(** Every member is stored under its own connection id. *)
Definition members_keyed (members : jsmap Member.t) : Prop :=
  Forall (fun kv => Member.socketId (snd kv) = fst kv) members.

Definition presence_keyed (p : Presence.t) : Prop :=
  Forall (fun kv => members_keyed (snd kv)) (Presence.channelMembers p).

(** The reverse map has one entry per connection, and the channel it names
    counts the connection among its members. *)
Definition reverse_map_sound (p : Presence.t) : Prop :=
  NoDup (keys (Presence.socketChannelMap p))
  /\ forall s c,
       get (Presence.socketChannelMap p) s = Some c ->
       is_empty c = false /\ has (membersOf p c) s = true.

(** What a channel must satisfy for [JSON.stringify] and the loader to give
    it back. *)
Definition persistable (ch : Channel.t) : Prop :=
  Channel.id ch <> [] /\ Channel.name ch <> []
  /\ isFinite (Channel.maxUsers ch) = true
  /\ num_truthy (Channel.maxUsers ch) = true
  /\ Channel.passwordHash ch <> Some []
  /\ truthy (Some (Channel.createdAt ch)) = true
  /\ json_of_json (Channel.createdAt ch) = Channel.createdAt ch.

(** The public part of a channel record: the secret erased. *)
Definition without_secret (ch : Channel.t) : Channel.t :=
  {| Channel.id := Channel.id ch;
     Channel.name := Channel.name ch;
     Channel.maxUsers := Channel.maxUsers ch;
     Channel.hasPassword := Channel.hasPassword ch;
     Channel.passwordHash := None;
     Channel.createdAt := Channel.createdAt ch |}.

(** The keys of a JSON object. *)
Definition keys_of (j : json) : list string :=
  match j with
  | JObj fields => map fst fields
  | _ => []
  end.

(** The candidates the collision loop can still run into: keys at least as
    long as the current id. *)
Definition key_length (k : key) : nat :=
  match k with KStr s => List.length s | _ => 0 end.

Definition longer_keys (chs : registry) (id : jsstring) : nat :=
  List.length
    (filter (fun k => (List.length id <=? key_length k)%nat) (keys chs)).

(** A channel whose capacity is truthy: [channel.maxUsers ||
    config.maxRoomUsers] is then the channel's own number. *)
Definition own_capacity (ch : Channel.t) : Prop :=
  num_truthy (Channel.maxUsers ch) = true.

(** The flag [hasPassword] says whether a secret is stored, and a stored
    secret is not the empty string. *)
Definition secret_consistent (ch : Channel.t) : Prop :=
  Channel.hasPassword ch = isSome (Channel.passwordHash ch)
  /\ Channel.passwordHash ch <> Some [].

(** The data directory exists and the file holds what [JSON.stringify]
    makes of the map. *)
Definition synced (st : Store.t) : Prop :=
  Store.dataDir st = true
  /\ Store.channelsFile st
     = Some (Parsed (JArr (map json_of_channel (getChannels st)))).


(** No registered channel holds more members than the admission test lets
    in: the last one admitted found the channel below its capacity. *)
Definition within_capacity (cfg : Config.t) (st : Store.t) (p : Presence.t)
    : Prop :=
  forall c ch,
    getChannel st c = Some ch ->
    size (membersOf p c) = 0
    \/ num_ge (num_of_nat (pred (size (membersOf p c))))
         (effectiveMaxUsers cfg ch) = false.

(** Every map of the presence tables has each key once. *)
Definition presence_nodup (p : Presence.t) : Prop :=
  NoDup (keys (Presence.channelMembers p))
  /\ NoDup (keys (Presence.socketChannelMap p))
  /\ Forall (fun kv => NoDup (keys (snd kv))) (Presence.channelMembers p).

(** No two neighbouring dashes. *)
Fixpoint no_double_dash (s : jsstring) : bool :=
  match s with
  | a :: (b :: _) as s' =>
      negb ((a =? dash)%N && (b =? dash)%N) && no_double_dash s'
  | _ => true
  end.

(** ** server.js (the older server with rooms)

    Rooms are made on demand and have no registry: [rooms] maps a room id
    to its members (connection id to display name), [roomPasswords] a room
    id to its password; the capacity of every room is
    [config.maxRoomUsers]. *)

Module Rooms.
Record t : Type := mk {
  rooms : jsmap (jsmap jsstring);
  roomPasswords : jsmap jsstring
}.
End Rooms.

(** The list [others] of the older [join-room] handler, filtered on the
    keys of the room. *)
Definition roomOthers (socketId : jsstring) (room : jsmap jsstring)
    : list json :=
  map (fun kv => JObj [("socketId", JStr (fst kv)); ("name", JStr (snd kv))])
    (filter (fun kv => negb (jsstring_eqb (fst kv) socketId)) room).

(** The first room, in insertion order, that has the connection: the loop
    of the older [disconnect] handler up to its [break]. *)
Fixpoint roomOf (socketId : jsstring) (rooms : jsmap (jsmap jsstring))
    : option (jsstring * jsmap jsstring) :=
  match rooms with
  | [] => None
  | (roomId, room) :: rest =>
      if has room socketId then Some (roomId, room) else roomOf socketId rest
  end.

Section RoomServer.
Context {H : Host}.
Variable cfg : Config.t.

(** [POST /rooms]; the number is the count of [Math.random] calls. *)
Definition post_rooms (roomId password : option jsstring) (d : nat)
    (s : Rooms.t) : Rooms.t * nat * action :=
  let '(roomId, d') :=
    match nonempty roomId with
    | Some r => (r, d)
    | None => (slice 2 10 (random36 d), S d)
    end in
  let rooms1 :=
    if has (Rooms.rooms s) roomId then Rooms.rooms s
    else set (Rooms.rooms s) roomId [] in
  let passwords1 :=
    match nonempty password with
    | Some pw => set (Rooms.roomPasswords s) roomId pw
    | None => Rooms.roomPasswords s
    end in
  ({| Rooms.rooms := rooms1; Rooms.roomPasswords := passwords1 |}, d',
   Respond 200
     (JObj [("roomId", JStr roomId);
            ("hasPassword", JBool (isSome (nonempty password)))])).

(** [GET /rooms/:roomId]. *)
Definition get_room (roomId : jsstring) (s : Rooms.t) : action :=
  match get (Rooms.rooms s) roomId with
  | None => Respond 404 (JObj [("exists", JBool false)])
  | Some room =>
      Respond 200
        (JObj [("exists", JBool true);
               ("usersCount", JNum (num_of_nat (size room)));
               ("hasPassword", JBool (has (Rooms.roomPasswords s) roomId))])
  end.

(** The older [join-room] handler: the password is tested before the
    capacity. *)
Definition room_join (socketId : jsstring) (payload : JoinPayload.t)
    (s : Rooms.t) : Rooms.t * list action :=
  match nonempty (JoinPayload.roomId payload) with
  | None => (s, [])
  | Some roomId =>
      let rooms1 :=
        if has (Rooms.rooms s) roomId then Rooms.rooms s
        else set (Rooms.rooms s) roomId [] in
      let room :=
        match get rooms1 roomId with Some room => room | None => [] end in
      let s1 :=
        {| Rooms.rooms := rooms1; Rooms.roomPasswords := Rooms.roomPasswords s |} in
      if match nonempty (get (Rooms.roomPasswords s) roomId) with
         | Some roomPass =>
             negb (jsstring_eqb roomPass (or_empty (JoinPayload.password payload)))
         | None => false
         end
      then (s1, [join_error socketId "WRONG_PASSWORD"])
      else if num_ge (num_of_nat (size room)) (Config.maxRoomUsers cfg)
      then (s1, [join_error socketId "ROOM_FULL"])
      else
        let name :=
          match nonempty (JoinPayload.userName payload) with
          | Some n => n
          | None => noName
          end in
        let room' := set room socketId name in
        ({| Rooms.rooms := set rooms1 roomId room';
            Rooms.roomPasswords := Rooms.roomPasswords s |},
         [Join socketId roomId;
          Emit (Socket socketId) "room-users"
            (JObj [("roomId", JStr roomId);
                   ("users", JArr (roomOthers socketId room'));
                   ("maxUsers", JNum (Config.maxRoomUsers cfg))]);
          Emit (RoomExcept roomId socketId) "user-joined"
            (JObj [("socketId", JStr socketId); ("name", JStr name)])])
  end.

(** The older [signal] handler. *)
Definition room_signal (socketId : jsstring) (roomId : option json)
    (targetSocketId : option jsstring) (data : option json) : list action :=
  match nonempty targetSocketId, data with
  | Some t, Some d =>
      if truthy roomId && truthy data then
        [Emit (Room t) "signal" (JObj [("from", JStr socketId); ("data", d)])]
      else []
  | _, _ => []
  end.

(** The older [disconnect] handler. *)
Definition room_disconnect (socketId : jsstring) (s : Rooms.t)
    : Rooms.t * list action :=
  match roomOf socketId (Rooms.rooms s) with
  | None => (s, [])
  | Some (roomId, room) =>
      let room' := delete room socketId in
      let rooms1 := set (Rooms.rooms s) roomId room' in
      let notice :=
        [Emit (RoomExcept roomId socketId) "user-left"
           (JObj [("socketId", JStr socketId)])] in
      if (size room' =? 0)%nat then
        ({| Rooms.rooms := delete rooms1 roomId;
            Rooms.roomPasswords := delete (Rooms.roomPasswords s) roomId |},
         notice)
      else
        ({| Rooms.rooms := rooms1; Rooms.roomPasswords := Rooms.roomPasswords s |},
         notice)
  end.

End RoomServer.

(** * Properties *)

(** ** Strings and maps *)

Lemma jsstring_eqb_eq (a b : jsstring) : jsstring_eqb a b = true <-> a = b.
Proof.
  revert b; induction a as [|x a IH]; intros [|y b]; simpl;
    try (split; [discriminate | congruence]); try tauto.
  rewrite andb_true_iff, N.eqb_eq, IH. split.
  - intros [-> ->]; reflexivity.
  - intros E; inversion E; auto.
Qed.

Lemma jsstring_eqb_refl (a : jsstring) : jsstring_eqb a a = true.
Proof. apply jsstring_eqb_eq; reflexivity. Qed.

Lemma jsstring_eqb_neq (a b : jsstring) : jsstring_eqb a b = false <-> a <> b.
Proof.
  rewrite <- jsstring_eqb_eq. destruct (jsstring_eqb a b); split; congruence.
Qed.

Lemma is_empty_true (s : jsstring) : is_empty s = true <-> s = [].
Proof. destruct s; simpl; split; congruence. Qed.

Lemma is_empty_false (s : jsstring) : is_empty s = false <-> s <> [].
Proof. destruct s; simpl; split; congruence. Qed.

#[export] Instance string_keys_laws : KeysLaws jsstring.
Proof.
  split; simpl.
  - exact jsstring_eqb_eq.
  - auto.
Qed.

#[export] Instance value_keys_laws : KeysLaws key.
Proof.
  split; simpl.
  - intros k s. destruct k as [|b|n|x|r]; simpl;
      try (split; [discriminate | congruence]).
    + destruct n; split; (discriminate || congruence).
    + rewrite jsstring_eqb_eq. split; congruence.
  - congruence.
Qed.

Section MapFacts.
Context {K V : Type} {HK : Keys K} {HL : KeysLaws K}.
Implicit Types (m : list (K * V)) (k : jsstring) (v : V).

Lemma same_refl k : same (of_string k : K) (of_string k) = true.
Proof. now apply same_of_string. Qed.

Lemma same_neq (k0 : K) k : same k0 (of_string k) = false <-> k0 <> of_string k.
Proof.
  rewrite <- same_of_string.
  destruct (same k0 (of_string k)); split; congruence.
Qed.

Lemma get_set_same m k v : get (set m k v) k = Some v.
Proof.
  induction m as [|[k' v'] m IH]; simpl.
  - now rewrite same_refl.
  - destruct (same k' (of_string k)) eqn:E; simpl; rewrite E; auto.
Qed.

Lemma get_set_other m k k' v : k <> k' -> get (set m k v) k' = get m k'.
Proof.
  intros N.
  assert (N' : same (of_string k : K) (of_string k') = false).
  { apply same_neq. intros E. now apply of_string_inj in E. }
  induction m as [|[k0 v0] m IH]; simpl.
  - now rewrite N'.
  - destruct (same k0 (of_string k)) eqn:E; simpl.
    + apply same_of_string in E; subst k0. now rewrite N'.
    + now rewrite IH.
Qed.

Lemma get_In m k v : get m k = Some v -> In (of_string k, v) m.
Proof.
  induction m as [|[k' v'] m IH]; simpl; [discriminate|].
  destruct (same k' (of_string k)) eqn:E.
  - apply same_of_string in E. intros [= ->]. left; congruence.
  - auto.
Qed.

Lemma has_In_keys m k : has m k = true <-> In (of_string k) (keys m).
Proof.
  unfold has, keys. induction m as [|[k' v'] m IH]; simpl.
  - split; [discriminate | tauto].
  - destruct (same k' (of_string k)) eqn:E.
    + apply same_of_string in E. tauto.
    + apply same_neq in E. rewrite IH. tauto.
Qed.

Lemma has_false_not_In m k : has m k = false <-> ~ In (of_string k) (keys m).
Proof.
  rewrite <- has_In_keys. destruct (has m k); split; congruence.
Qed.

Lemma set_fresh m k v :
  has m k = false -> set m k v = m ++ [(of_string k, v)].
Proof.
  unfold has. induction m as [|[k' v'] m IH]; simpl; auto.
  destruct (same k' (of_string k)) eqn:E; [discriminate|].
  intros Hm. now rewrite IH.
Qed.

Lemma keys_set_present m k v : has m k = true -> keys (set m k v) = keys m.
Proof.
  unfold has, keys. induction m as [|[k' v'] m IH]; simpl; [discriminate|].
  destruct (same k' (of_string k)) eqn:E; simpl; auto.
  intros Hm. now rewrite IH.
Qed.

Lemma keys_set_fresh m k v :
  has m k = false -> keys (set m k v) = keys m ++ [of_string k].
Proof.
  intros Hm. rewrite set_fresh by assumption. unfold keys.
  now rewrite map_app.
Qed.

Lemma NoDup_keys_set m k v : NoDup (keys m) -> NoDup (keys (set m k v)).
Proof.
  intros ND. destruct (has m k) eqn:E.
  - now rewrite keys_set_present.
  - rewrite keys_set_fresh by assumption.
    apply NoDup_app; [assumption | repeat constructor; simpl; tauto |].
    intros x Hx [<-|[]]. now apply has_false_not_In in E.
Qed.

Lemma Forall_set (P : K * V -> Prop) m k v :
  Forall P m -> P (of_string k, v) -> Forall P (set m k v).
Proof.
  intros Fm Pv. induction Fm as [|[k' v'] m Px Fm IH]; simpl.
  - repeat constructor; auto.
  - destruct (same k' (of_string k)) eqn:E; constructor; auto.
    apply same_of_string in E. now subst k'.
Qed.

Lemma Forall_delete (P : K * V -> Prop) m k :
  Forall P m -> Forall P (delete m k).
Proof.
  intros Fm. induction Fm as [|[k' v'] m Px Fm IH]; simpl; auto.
  destruct (same k' (of_string k)); auto.
Qed.

Lemma setKey_of_string m k v : setKey m (of_string k) v = set m k v.
Proof.
  induction m as [|[k' v'] m IH]; simpl; auto.
  destruct (same k' (of_string k)); auto. now rewrite IH.
Qed.

(** A property of the values alone holds of a map extended under any key. *)
Lemma Forall_setKey (P : V -> Prop) m (k0 : K) v :
  Forall (fun kv => P (snd kv)) m -> P v ->
  Forall (fun kv => P (snd kv)) (setKey m k0 v).
Proof.
  intros Fm Pv. induction Fm as [|[k' v'] m Px Fm IH]; simpl.
  - repeat constructor; auto.
  - destruct (same k' k0); constructor; auto.
Qed.

End MapFacts.


(** ** The collision loop of [createChannel] terminates *)

Lemma filter_length_mono {A : Type} (p q : A -> bool) (l : list A) :
  (forall y, q y = true -> p y = true) ->
  List.length (filter q l) <= List.length (filter p l).
Proof.
  intros Hqp. induction l as [|a l IH]; simpl; auto.
  destruct (q a) eqn:Q.
  - rewrite (Hqp a Q). simpl. lia.
  - destruct (p a); simpl; lia.
Qed.

Lemma filter_length_lt {A : Type} (p q : A -> bool) (l : list A) (x : A) :
  (forall y, q y = true -> p y = true) ->
  In x l -> p x = true -> q x = false ->
  List.length (filter q l) < List.length (filter p l).
Proof.
  intros Hqp Hin Px Qx. induction l as [|a l IH]; simpl; [contradiction|].
  destruct Hin as [->|Hin].
  - rewrite Px, Qx. simpl.
    pose proof (filter_length_mono p q l Hqp). lia.
  - specialize (IH Hin). destruct (q a) eqn:Q.
    + rewrite (Hqp a Q). simpl. lia.
    + destruct (p a); simpl; lia.
Qed.

Lemma longer_keys_le_size (chs : registry) (id : jsstring) :
  longer_keys chs id <= size chs.
Proof.
  unfold longer_keys, size, keys.
  rewrite <- (length_map fst chs). apply List.filter_length_le.
Qed.

Lemma longer_keys_decrease (chs : registry) (id suffix : jsstring) :
  has chs id = true ->
  longer_keys chs (id ++ [dash] ++ suffix) < longer_keys chs id.
Proof.
  intros Hhas. apply has_In_keys in Hhas. unfold longer_keys.
  apply filter_length_lt with (x := of_string id); auto.
  - intros y. rewrite !Nat.leb_le, !length_app. simpl. lia.
  - apply Nat.leb_le. simpl. lia.
  - apply Nat.leb_gt. rewrite !length_app. simpl. lia.
Qed.

Section StoreFacts.
Context {H : Host}.

Lemma freshId_returns (fuel : nat) (chs : registry) (id : jsstring)
    (d : nat) :
  longer_keys chs id <= fuel ->
  exists id' d',
    freshId fuel chs id d = Some (id', d') /\ has chs id' = false
    /\ List.length id <= List.length id'.
Proof.
  revert id d. induction fuel as [|fuel IH]; intros id d Hle.
  - destruct (has chs id) eqn:E.
    + pose proof (longer_keys_decrease chs id [] E). lia.
    + exists id, d. simpl. now rewrite E.
  - destruct (has chs id) eqn:E.
    + simpl. rewrite E.
      destruct (IH (id ++ [dash] ++ slice 2 5 (random36 d)) (S d))
        as (id' & d' & E1 & E2 & E3).
      * pose proof (longer_keys_decrease chs id (slice 2 5 (random36 d)) E).
        lia.
      * exists id', d'. repeat split; auto.
        rewrite length_app in E3. lia.
    + exists id, d. simpl. now rewrite E.
Qed.

Lemma slugify_nonempty (name : jsstring) (d : nat) :
  fst (slugify name d) <> [].
Proof.
  unfold slugify.
  destruct (is_empty _) eqn:E; simpl.
  - discriminate.
  - now apply is_empty_false.
Qed.

(** The channel record [createChannel] builds once the id is settled. *)
Lemma createChannel_spec (params : CreateParams.t) (now : jsstring)
    (st : Store.t) :
  trim (or_empty (CreateParams.name params)) <> [] ->
  exists id d,
    has (Store.channels st) id = false /\ id <> [] /\
    let channel :=
      {| Channel.id := id;
         Channel.name := trim (or_empty (CreateParams.name params));
         Channel.maxUsers :=
           if num_gt0 (Number_opt (CreateParams.maxUsers params))
           then Number_opt (CreateParams.maxUsers params) else ten;
         Channel.hasPassword := isSome (nonempty (CreateParams.password params));
         Channel.passwordHash := nonempty (CreateParams.password params);
         Channel.createdAt := JStr now |} in
    let st1 :=
      with_draws (with_channels st (set (Store.channels st) id channel)) d in
    createChannel params now st =
      Some (match saveChannelsToDisk st1 with
            | (Threw e, st2) => (Threw e, st2)
            | (Returned _, st2) => (Returned channel, st2)
            end).
Proof.
  intros Hname. unfold createChannel.
  apply is_empty_false in Hname. rewrite Hname.
  pose proof (slugify_nonempty (trim (or_empty (CreateParams.name params)))
                (Store.draws st)) as Hslug.
  destruct (slugify _ _) as [id0 d0]. simpl in Hslug.
  destruct (freshId_returns (size (Store.channels st)) (Store.channels st)
              id0 d0 (longer_keys_le_size _ _)) as (id & d & E1 & E2 & E3).
  exists id, d. rewrite E1. split; [assumption|]. split.
  - destruct id; [|discriminate].
    destruct id0; [congruence | simpl in E3; lia].
  - cbv zeta. destruct (saveChannelsToDisk _) as [[u|e] st2]; reflexivity.
Qed.

Lemma createChannel_returns (params : CreateParams.t) (now : jsstring)
    (st : Store.t) :
  exists r, createChannel params now st = Some r.
Proof.
  destruct (trim (or_empty (CreateParams.name params))) eqn:E.
  - exists (Threw NAME_REQUIRED, st). unfold createChannel. now rewrite E.
  - destruct (createChannel_spec params now st) as (id & d & _ & _ & Hc).
    + rewrite E; discriminate.
    + eexists. exact Hc.
Qed.

(** A write that is refused: the call throws and the store, the file with
    it, is as before. *)
Lemma save_refused (st : Store.t) :
  Store.writable st = false -> Store.truncates st = false ->
  saveChannelsToDisk st = (Threw FsError, st).
Proof.
  intros W T. unfold saveChannelsToDisk, ensureDataDir.
  destruct (Store.dataDir st); rewrite W, ?T; reflexivity.
Qed.

(** A write that fails, refused or not: the call throws, and the map, the
    draws and the condition of the file system are as before. *)
Lemma save_unwritable (st : Store.t) :
  Store.writable st = false ->
  exists st',
    saveChannelsToDisk st = (Threw FsError, st')
    /\ Store.channels st' = Store.channels st
    /\ Store.draws st' = Store.draws st
    /\ Store.writable st' = false
    /\ Store.truncates st' = Store.truncates st.
Proof.
  intros W. unfold saveChannelsToDisk, ensureDataDir.
  destruct (Store.dataDir st); rewrite W; [|eauto 6].
  destruct (Store.truncates st) eqn:T; eexists; (split; [reflexivity|]);
    simpl; auto.
Qed.

Lemma save_writable (st : Store.t) :
  Store.writable st = true ->
  saveChannelsToDisk st =
    (Returned tt,
     {| Store.channels := Store.channels st;
        Store.dataDir := true;
        Store.channelsFile :=
          Some (Parsed (JArr (map json_of_channel (values (Store.channels st)))));
        Store.writable := true;
        Store.draws := Store.draws st;
        Store.truncates := Store.truncates st |}).
Proof.
  intros W. unfold saveChannelsToDisk, ensureDataDir, with_file.
  destruct (Store.dataDir st) eqn:D; rewrite W; simpl; rewrite ?W, ?D;
    reflexivity.
Qed.

(** C6. A name that is absent, empty or only white space makes
    [createChannel] throw [NAME_REQUIRED]; the map, the file and the rest
    of the store are what they were. *)
Theorem createChannel_name_required (params : CreateParams.t)
    (now : jsstring) (st : Store.t) (p : Presence.t) :
  trim (or_empty (CreateParams.name params)) = [] ->
  createChannel params now st = Some (Threw NAME_REQUIRED, st)
  /\ post_channels params now st p
     = Some ([Respond 400 (error_body "NAME_REQUIRED")], st).
Proof.
  intros E. unfold post_channels, createChannel. rewrite E. simpl. auto.
Qed.

(** C4, as amended. When the capacity argument is absent or not positive,
    the created channel has capacity 10, the constant written in
    [createChannel]; this is also its effective capacity at admission,
    whatever [maxRoomUsers] is configured. *)
Theorem createChannel_default_capacity (cfg : Config.t)
    (params : CreateParams.t) (now : jsstring) (st : Store.t) :
  trim (or_empty (CreateParams.name params)) <> [] ->
  Store.writable st = true ->
  num_gt0 (Number_opt (CreateParams.maxUsers params)) = false ->
  exists ch st',
    createChannel params now st = Some (Returned ch, st')
    /\ get (Store.channels st') (Channel.id ch) = Some ch
    /\ Channel.maxUsers ch = ten
    /\ effectiveMaxUsers cfg ch = ten.
Proof.
  intros Hname W Hcap.
  destruct (createChannel_spec params now st Hname) as (id & d & _ & _ & Hc).
  cbv zeta in Hc. rewrite Hcap in Hc.
  rewrite save_writable in Hc by exact W.
  eexists _, _. split; [exact Hc|]. simpl.
  rewrite get_set_same. auto.
Qed.

(** C3, as amended. When the write fails, [createChannel] throws the file
    system's error and [POST /channels] answers 500 [INTERNAL_ERROR]
    without a broadcast; the map is not rolled back: it already holds the
    new channel, under a key it did not have. *)
Theorem createChannel_write_failure (params : CreateParams.t)
    (now : jsstring) (st : Store.t) (p : Presence.t) :
  trim (or_empty (CreateParams.name params)) <> [] ->
  Store.writable st = false ->
  exists st',
    createChannel params now st = Some (Threw FsError, st')
    /\ post_channels params now st p
       = Some ([Respond 500 (error_body "INTERNAL_ERROR")], st')
    /\ exists id ch,
         has (Store.channels st) id = false
         /\ Channel.id ch = id
         /\ Store.channels st' = set (Store.channels st) id ch.
Proof.
  intros Hname W.
  destruct (createChannel_spec params now st Hname) as (id & d & Hf & _ & Hc).
  cbv zeta in Hc.
  match type of Hc with
  | context [saveChannelsToDisk ?s] =>
      destruct (save_unwritable s W) as (st' & E & Hch & _)
  end.
  rewrite E in Hc.
  exists st'. split; [exact Hc|]. unfold post_channels. rewrite Hc.
  split; [reflexivity|].
  eexists id, _. split; [exact Hf|]. split; [|exact Hch]. reflexivity.
Qed.

End StoreFacts.


(** ** Every channel under its own id *)

Lemma keyed_nil : keyed [].
Proof. split; constructor. Qed.

Lemma keyed_set (chs : registry) (k : jsstring) (ch : Channel.t) :
  keyed chs -> Channel.id ch = k -> keyed (set chs k ch).
Proof.
  intros [ND F] E. split.
  - now apply NoDup_keys_set.
  - apply Forall_set; [assumption|]. simpl. now rewrite E.
Qed.

Lemma keyed_get (chs : registry) (k : jsstring) (ch : Channel.t) :
  keyed chs -> get chs k = Some ch -> Channel.id ch = k.
Proof.
  intros [_ F] G. apply get_In in G.
  rewrite Forall_forall in F. specialize (F _ G). simpl in F. congruence.
Qed.

Lemma keyed_ids (chs : registry) :
  keyed chs -> map of_string (map Channel.id (values chs)) = keys chs.
Proof.
  intros [_ F]. unfold values, keys. rewrite !map_map.
  apply map_ext_in. intros kv Hin. rewrite Forall_forall in F.
  symmetry. auto.
Qed.

Lemma save_channels (st : Store.t) :
  Store.channels (snd (saveChannelsToDisk st)) = Store.channels st.
Proof.
  unfold saveChannelsToDisk, ensureDataDir.
  destruct (Store.dataDir st), (Store.writable st) eqn:W,
    (Store.truncates st) eqn:T; simpl; rewrite ?W, ?T; reflexivity.
Qed.

Lemma keyed_setAll (initial : list Channel.t) (chs : registry) :
  keyed chs -> keyed (setAll chs initial).
Proof.
  unfold setAll. revert chs.
  induction initial as [|ch l IH]; intros chs K; simpl; auto.
  apply IH. now apply keyed_set.
Qed.

Section KeyedStore.
Context {H : Host}.

Lemma createChannel_keyed (params : CreateParams.t) (now : jsstring)
    (st : Store.t) :
  keyed (Store.channels st) ->
  exists r, createChannel params now st = Some r
            /\ keyed (Store.channels (snd r)).
Proof.
  intros K. destruct (trim (or_empty (CreateParams.name params))) eqn:E.
  - exists (Threw NAME_REQUIRED, st). unfold createChannel.
    rewrite E. simpl. auto.
  - destruct (createChannel_spec params now st) as (id & d & _ & _ & Hc).
    + rewrite E; discriminate.
    + cbv zeta in Hc. eexists. split; [exact Hc|].
      match goal with
      | |- context [saveChannelsToDisk ?s] =>
          pose proof (save_channels s) as S;
          destruct (saveChannelsToDisk s) as [[u|e] st2]
      end; simpl in *; rewrite S; now apply keyed_set.
Qed.

Lemma updateChannel_keyed (id : jsstring) (patch : Patch.t) (st : Store.t) :
  keyed (Store.channels st) ->
  keyed (Store.channels (snd (updateChannel id patch st))).
Proof.
  intros K. unfold updateChannel.
  destruct (get (Store.channels st) id) as [existing|] eqn:G; [|assumption].
  destruct (Patch.password patch) as [pw|];
    match goal with
    | |- context [saveChannelsToDisk ?s] =>
        pose proof (save_channels s) as S;
        destruct (saveChannelsToDisk s) as [[u|e] st2]
    end; simpl in *; rewrite S; apply keyed_set; auto;
    simpl; eapply keyed_get; eauto.
Qed.

Lemma exec_keyed (c : call) (st : Store.t) :
  keyed (Store.channels st) ->
  exists st', exec st c = Some st' /\ keyed (Store.channels st').
Proof.
  intros K. destruct c as [params now|id patch|b]; simpl.
  - destruct (createChannel_keyed params now st K) as (r & -> & K').
    simpl. eauto.
  - eexists; split; [reflexivity|]. now apply updateChannel_keyed.
  - eexists; split; [reflexivity|]. assumption.
Qed.


Lemma loadEntry_keyed (now : jsstring) (chs chs' : registry)
    (ch : json) :
  string_id ch ->
  keyed chs -> loadEntry now chs ch = Some chs' -> keyed chs'.
Proof.
  intros S K. unfold loadEntry.
  destruct (truthy (Some ch) && truthy (prop ch "id")
            && truthy (prop ch "name")) eqn:T; [|now intros [= <-]].
  apply andb_true_iff in T. destruct T as [T _].
  apply andb_true_iff in T. destruct T as [_ T].
  destruct (S T) as (s & ->).
  destruct (prop ch "name") as [nm|]; [|now intros [= <-]].
  cbn [String_json key_of].
  destruct (String_json nm); try discriminate.
  destruct (Number_json _); try discriminate.
  match goal with
  | |- match ?a with _ => _ end = _ -> _ => destruct a; try discriminate
  end.
  intros [= <-]. change (KStr s) with (@of_string key _ s).
  rewrite setKey_of_string. now apply keyed_set.
Qed.

Lemma loadEntries_keyed (now : jsstring) (parsed : list json)
    (chs chs' : registry) :
  Forall string_id parsed ->
  keyed chs -> loadEntries now chs parsed = Some chs' -> keyed chs'.
Proof.
  intros S. revert chs.
  induction S as [|ch rest Sch S IH]; intros chs K; simpl.
  - now intros [= <-].
  - destruct (loadEntry now chs ch) as [chs1|] eqn:E; [|discriminate].
    apply IH. eapply loadEntry_keyed; eauto.
Qed.

Lemma reseed_keyed (now : jsstring) (st : Store.t) :
  keyed (Store.channels (snd (reseed now st))).
Proof.
  unfold reseed. rewrite save_channels. simpl.
  exact (keyed_set [] (str "general") (seed now (str "general") _)
           keyed_nil eq_refl).
Qed.

(** On a file whose ids are strings, as the files the store writes are,
    the loader keeps every channel under its own id. *)
Lemma load_keyed (now : jsstring) (st st' : Store.t) (o : outcome unit) :
  string_ids (Store.channelsFile st) ->
  keyed (Store.channels st) ->
  loadChannelsFromDisk now st = Some (o, st') ->
  keyed (Store.channels st').
Proof.
  intros S K. unfold loadChannelsFromDisk.
  assert (E0 : Store.channels (snd (ensureDataDir st)) = Store.channels st
               /\ Store.channelsFile (snd (ensureDataDir st))
                  = Store.channelsFile st).
  { unfold ensureDataDir.
    destruct (Store.dataDir st), (Store.writable st); split; reflexivity. }
  destruct (ensureDataDir st) as [[u|e] st0]; simpl in E0;
    destruct E0 as [E0 E1].
  2:{ intros [= _ <-]. now rewrite E0. }
  rewrite <- E1 in S.
  destruct (Store.channelsFile st0) as [[|j]|].
  - intros [= E]. pose proof (reseed_keyed now st0) as R.
    now rewrite E in R.
  - destruct j; try (intros [= _ <-]; now rewrite E0).
    destruct (loadEntries now (Store.channels st0) l) as [chs|] eqn:L.
    + intros [= _ <-]. simpl. eapply loadEntries_keyed; [exact S| |exact L].
      now rewrite E0.
    + intros [= E]. pose proof (reseed_keyed now st0) as R.
      now rewrite E in R.
  - intros [= E].
    match type of E with
    | saveChannelsToDisk ?s = _ => pose proof (save_channels s) as S'
    end.
    rewrite E in S'. cbn [snd] in S'. rewrite S'. simpl.
    repeat (apply keyed_set; [|reflexivity]). now rewrite E0.
Qed.

End KeyedStore.

(** C5, at a data file that gives a number as an id. The loader stores the
    channel of [[{"id": 5, "name": "a"}]] under the number 5, the key the
    file gave, with the id ["5"]; a [createChannel] for the name ["5"] then
    asks the map for the string ["5"], finds none and stores a second
    channel with the id ["5"]. *)
Theorem numeric_id_is_given_twice :
  exists st0 ch st1,
    @loadChannelsFromDisk basicHost (str "2024-01-01")
      (fresh true
         (Some (Parsed (JArr [JObj [("id", JNum (num_of_Z 5));
                                    ("name", JStr (str "a"))]])))
         true 0)
    = Some (Returned tt, st0)
    /\ keys (Store.channels st0) = [KNum (num_of_Z 5)]
    /\ map Channel.id (getChannels st0) = [str "5"]
    /\ has (Store.channels st0) (str "5") = false
    /\ @createChannel basicHost (CreateParams.mk (Some (str "5")) None None)
         (str "2024-01-02") st0
       = Some (Returned ch, st1)
    /\ Channel.id ch = str "5"
    /\ keys (Store.channels st1) = [KNum (num_of_Z 5); KStr (str "5")]
    /\ map Channel.id (getChannels st1) = [str "5"; str "5"]
    /\ ~ NoDup (map Channel.id (getChannels st1)).
Proof.
  eexists _, _, _.
  split; [vm_compute; reflexivity|].
  split; [reflexivity|].
  split; [reflexivity|].
  split; [reflexivity|].
  split; [vm_compute; reflexivity|].
  split; [reflexivity|].
  split; [reflexivity|].
  split; [reflexivity|].
  intros ND. inversion ND as [|x l Hx ND']. apply Hx. now left.
Qed.


(** ** Saving and loading again *)

Section RoundTrip.
Context {H : Host}.

Lemma loadEntry_json_of_channel (now : jsstring) (chs : registry)
    (ch : Channel.t) :
  persistable ch ->
  loadEntry now chs (json_of_channel ch) = Some (set chs (Channel.id ch) ch).
Proof.
  destruct ch as [id name maxUsers hasPassword passwordHash createdAt].
  unfold persistable. cbn -[truthy json_of_json].
  intros (Hid & Hname & Hfin & Htruthy & Hpw & Hcreated & Hjson).
  rewrite <- (setKey_of_string (K := key)).
  destruct maxUsers as [| | |q]; try discriminate.
  destruct id as [|c0 id]; [congruence|].
  destruct name as [|c1 name]; [congruence|].
  destruct passwordHash as [[|c3 pw]|]; [now elim Hpw| |];
    unfold loadEntry, json_of_channel; cbn -[num_or json_of_json truthy];
    rewrite Hjson, Hcreated; cbn -[num_or]; unfold num_or;
    rewrite Htruthy; reflexivity.
Qed.

Lemma loadEntries_json_of_channel (now : jsstring) (l : list Channel.t)
    (chs : registry) :
  Forall persistable l ->
  loadEntries now chs (map json_of_channel l) = Some (setAll chs l).
Proof.
  intros F. revert chs. induction F as [|ch l P F IH]; intros chs; simpl.
  - reflexivity.
  - rewrite loadEntry_json_of_channel by assumption. apply IH.
Qed.

End RoundTrip.

Lemma setAll_values (m acc : registry) :
  keyed m -> (forall k, In k (keys m) -> ~ In k (keys acc)) ->
  setAll acc (values m) = acc ++ m.
Proof.
  unfold setAll. intros [ND F]. revert acc.
  induction m as [|[k ch] m IH]; intros acc Hdisj; simpl.
  - now rewrite app_nil_r.
  - inversion ND as [|? ? Hk ND']; subst.
    inversion F as [|? ? Hid F']; subst. simpl in Hid. subst k.
    rewrite set_fresh.
    + rewrite IH; auto.
      * now rewrite <- app_assoc.
      * intros k' Hk'. unfold keys. rewrite map_app, in_app_iff. simpl.
        intros [Hin|[<-|[]]].
        -- apply (Hdisj k'); [right; assumption | assumption].
        -- contradiction.
    + apply has_false_not_In. apply Hdisj. now left.
Qed.

Section RoundTripStore.
Context {H : Host}.

(** Saving a registry whose channels are [persistable] and loading the file
    in a new process gives the same map back: same channels, same order. *)
Lemma save_restart_load (now : jsstring) (st : Store.t) :
  Store.writable st = true ->
  keyed (Store.channels st) ->
  Forall persistable (getChannels st) ->
  exists st1 st2,
    saveChannelsToDisk st = (Returned tt, st1)
    /\ loadChannelsFromDisk now (restart st1) = Some (Returned tt, st2)
    /\ Store.channels st2 = Store.channels st.
Proof.
  intros W K P. rewrite (save_writable st W).
  eexists _, _. split; [reflexivity|].
  unfold loadChannelsFromDisk, restart, fresh, ensureDataDir. cbn.
  rewrite loadEntries_json_of_channel by exact P.
  split; [reflexivity|]. cbn.
  rewrite setAll_values; auto.
Qed.

End RoundTripStore.


Section Persistable.
Context {H : Host}.

(** A channel created with a finite (or defaulted) capacity at a non-empty
    time stamp is [persistable]. *)
Lemma createChannel_persistable (params : CreateParams.t) (now : jsstring)
    (st st' : Store.t) (ch : Channel.t) :
  now <> [] ->
  isFinite (Number_opt (CreateParams.maxUsers params)) = true
  \/ num_gt0 (Number_opt (CreateParams.maxUsers params)) = false ->
  createChannel params now st = Some (Returned ch, st') ->
  persistable ch.
Proof.
  intros Hnow Hcap.
  destruct (trim (or_empty (CreateParams.name params))) as [|c name] eqn:E.
  { unfold createChannel. rewrite E. discriminate. }
  destruct (createChannel_spec params now st) as (id & d & _ & Hid & Hc).
  { rewrite E. discriminate. }
  cbv zeta in Hc. rewrite Hc. clear Hc.
  destruct (saveChannelsToDisk _) as [[u|e] st2]; [|discriminate].
  intros [= <- _]. unfold persistable. simpl.
  split; [exact Hid|]. split; [rewrite E; discriminate|].
  split; [|split; [|split; [|split; [|reflexivity];
                    apply negb_true_iff, is_empty_false; exact Hnow]]].
  - destruct (num_gt0 _) eqn:G; [|reflexivity].
    destruct Hcap as [F|F]; [exact F | discriminate F].
  - destruct (num_gt0 _) eqn:G; [|reflexivity].
    destruct (Number_opt _) as [| | |q]; try discriminate; try reflexivity.
    simpl in *. apply Z.ltb_lt in G. apply negb_true_iff, Z.eqb_neq. lia.
  - destruct (CreateParams.password params) as [[|c0 pw]|]; discriminate.
Qed.

End Persistable.

(** C7, at a channel created with an infinite capacity. [createChannel]
    accepts the capacity as it is positive; [JSON.stringify] writes it as
    [null]; after a restart the loader reads the channel with capacity 10. *)
Theorem infinite_capacity_not_reloaded :
  exists st0 ch st1 st2,
    @loadChannelsFromDisk basicHost (str "2024-01-01")
      (fresh false None true 0) = Some (Returned tt, st0)
    /\ @createChannel basicHost
         (CreateParams.mk (Some (str "Lobby")) (Some PInf) None)
         (str "2024-01-02") st0 = Some (Returned ch, st1)
    /\ getChannel st1 (str "lobby") = Some ch
    /\ Channel.maxUsers ch = PInf
    /\ @loadChannelsFromDisk basicHost (str "2024-01-03") (restart st1)
       = Some (Returned tt, st2)
    /\ map Channel.id (getChannels st2) = map Channel.id (getChannels st1)
    /\ option_map Channel.maxUsers (getChannel st2 (str "lobby")) = Some ten.
Proof.
  eexists _, _, _, _.
  split; [vm_compute; reflexivity|].
  split; [vm_compute; reflexivity|].
  split; [vm_compute; reflexivity|].
  split; [reflexivity|].
  split; [vm_compute; reflexivity|].
  split; vm_compute; reflexivity.
Qed.


(** ** The public snapshot *)

Lemma buildChannelsState_ext (st : Store.t) (p p' : Presence.t) :
  (forall c, onlineUsersOf (get (Presence.channelMembers p') c)
             = onlineUsersOf (get (Presence.channelMembers p) c)) ->
  buildChannelsState st p' = buildChannelsState st p.
Proof.
  intros E. unfold buildChannelsState. apply map_ext. intros ch.
  now rewrite E.
Qed.

Lemma onlineUsers_empty_map (cm : jsmap (jsmap Member.t)) (c0 c : jsstring) :
  onlineUsersOf
    (get match get cm c0 with Some _ => cm | None => set cm c0 [] end c)
  = onlineUsersOf (get cm c).
Proof.
  destruct (get cm c0) eqn:G; [reflexivity|].
  destruct (jsstring_eqb c0 c) eqn:E.
  - apply jsstring_eqb_eq in E. subst c.
    now rewrite get_set_same, G.
  - apply jsstring_eqb_neq in E. now rewrite get_set_other.
Qed.

(** C9. Every entry of the snapshot is an object with the keys [id],
    [name], [maxUsers], [hasPassword], [onlineCount], [onlineUsers], and
    every online user an object with the keys [socketId] and [name]; two
    registries that differ only in the stored secrets have the same
    snapshot. *)
Theorem snapshot_hides_secret (st : Store.t) (p : Presence.t) :
  Forall
    (fun entry =>
       keys_of entry
       = ["id"; "name"; "maxUsers"; "hasPassword"; "onlineCount"; "onlineUsers"]
       /\ exists users,
            prop entry "onlineUsers" = Some (JArr users)
            /\ Forall (fun u => keys_of u = ["socketId"; "name"]) users)
    (buildChannelsState st p)
  /\ forall st' : Store.t,
       map without_secret (getChannels st') = map without_secret (getChannels st) ->
       buildChannelsState st' p = buildChannelsState st p.
Proof.
  split.
  - unfold buildChannelsState. apply Forall_forall. intros entry Hin.
    apply in_map_iff in Hin. destruct Hin as (ch & <- & _). simpl.
    split; [reflexivity|]. eexists. split; [reflexivity|].
    destruct (get (Presence.channelMembers p) (Channel.id ch)) as [ms|];
      simpl; [|constructor].
    apply Forall_forall. intros u Hu. apply in_map_iff in Hu.
    destruct Hu as (m & <- & _). reflexivity.
  - intros st' E. unfold buildChannelsState.
    set (f := fun ch : Channel.t =>
                publicChannel ch
                  (onlineUsersOf
                     (get (Presence.channelMembers p) (Channel.id ch)))).
    assert (Hf : forall l, map f l = map f (map without_secret l)).
    { intros l. rewrite map_map. apply map_ext. intros ch. reflexivity. }
    rewrite (Hf (getChannels st')), (Hf (getChannels st)). now rewrite E.
Qed.

(** ** Admission *)

Lemma join_error_code (socketId : jsstring) (code code' : string) :
  join_error socketId code = join_error socketId code' -> str code = str code'.
Proof. unfold join_error. intros E. now inversion E. Qed.

Section Admission.
Context {H : Host}.
Variable cfg : Config.t.

(** The member map of a channel after the handler's look-up: an empty map
    is put in place when there was none. *)
Lemma join_room_unfold (socketId now : jsstring) (payload : JoinPayload.t)
    (st : Store.t) (p : Presence.t) :
  join_room cfg socketId now payload st p =
    let channelId := trim (or_empty (JoinPayload.roomId payload)) in
    if is_empty channelId then (p, [])
    else
      match getChannel st channelId with
      | None => (p, [join_error socketId "CHANNEL_NOT_FOUND"])
      | Some channel =>
          let members := membersOf p channelId in
          let cm :=
            match get (Presence.channelMembers p) channelId with
            | Some _ => Presence.channelMembers p
            | None => set (Presence.channelMembers p) channelId []
            end in
          let p1 :=
            {| Presence.channelMembers := cm;
               Presence.socketChannelMap := Presence.socketChannelMap p |} in
          if num_ge (num_of_nat (size members)) (effectiveMaxUsers cfg channel)
          then (p1, [join_error socketId "ROOM_FULL"])
          else if wrongPassword channel (JoinPayload.password payload)
          then (p1, [join_error socketId "WRONG_PASSWORD"])
          else
            let member :=
              {| Member.socketId := socketId;
                 Member.name :=
                   match nonempty (JoinPayload.userName payload) with
                   | Some n => n
                   | None => noName
                   end;
                 Member.joinedAt := now |} in
            let members' := set members socketId member in
            let p2 :=
              {| Presence.channelMembers := set cm channelId members';
                 Presence.socketChannelMap :=
                   set (Presence.socketChannelMap p) socketId channelId |} in
            (p2,
             [Join socketId channelId;
              Emit (Socket socketId) "room-users"
                (JObj [("roomId", JStr channelId);
                       ("users", JArr (othersOf socketId members'));
                       ("maxUsers", JNum (effectiveMaxUsers cfg channel))]);
              Emit (RoomExcept channelId socketId) "user-joined"
                (JObj [("socketId", JStr socketId);
                       ("name", JStr (Member.name member))]);
              broadcastChannelsState st p2])
      end.
Proof.
  unfold join_room, membersOf. cbv zeta.
  destruct (is_empty _); [reflexivity|].
  destruct (getChannel st _); [|reflexivity].
  destruct (get (Presence.channelMembers p) _); reflexivity.
Qed.


Lemma others_set (socketId : jsstring) (member : Member.t)
    (members : jsmap Member.t) :
  members_keyed members ->
  Member.socketId member = socketId ->
  filter (fun m => negb (jsstring_eqb (Member.socketId m) socketId))
    (values (set members socketId member))
  = filter (fun m => negb (jsstring_eqb (Member.socketId m) socketId))
      (values members).
Proof.
  intros K E. induction K as [|[k m] members Hk K IH]; simpl.
  - now rewrite E, jsstring_eqb_refl.
  - simpl in Hk. destruct (jsstring_eqb k socketId) eqn:Ek; simpl.
    + now rewrite E, Hk, Ek, jsstring_eqb_refl.
    + now rewrite Hk, Ek, IH.
Qed.

Lemma others_absent (socketId : jsstring) (members : jsmap Member.t) :
  members_keyed members ->
  has members socketId = false ->
  filter (fun m => negb (jsstring_eqb (Member.socketId m) socketId))
    (values members)
  = values members.
Proof.
  unfold has. intros K. induction K as [|[k m] members Hk K IH]; simpl; auto.
  simpl in Hk. rewrite Hk.
  destruct (jsstring_eqb k socketId); [discriminate|]. simpl.
  intros Hm. now rewrite IH.
Qed.

Lemma members_keyed_membersOf (p : Presence.t) (c : jsstring) :
  presence_keyed p -> members_keyed (membersOf p c).
Proof.
  intros F. unfold membersOf.
  destruct (get (Presence.channelMembers p) c) as [ms|] eqn:G.
  - apply get_In in G. unfold presence_keyed in F.
    rewrite Forall_forall in F. exact (F _ G).
  - constructor.
Qed.

(** C8. On admission the joiner is a member of the channel under its own
    connection id, the reverse map sends the joiner to the channel, and the
    [room-users] list sent to the joiner is the list of the members the
    channel had before the insertion other than the joiner: all of them
    when the joiner was not yet one, and never the joiner. *)
Theorem join_room_admitted (socketId now : jsstring)
    (payload : JoinPayload.t) (st : Store.t) (p : Presence.t)
    (channel : Channel.t) :
  let channelId := trim (or_empty (JoinPayload.roomId payload)) in
  let before := membersOf p channelId in
  let member :=
    {| Member.socketId := socketId;
       Member.name :=
         match nonempty (JoinPayload.userName payload) with
         | Some n => n
         | None => noName
         end;
       Member.joinedAt := now |} in
  let peers :=
    filter (fun m => negb (jsstring_eqb (Member.socketId m) socketId))
      (values before) in
  channelId <> [] ->
  getChannel st channelId = Some channel ->
  num_ge (num_of_nat (size before)) (effectiveMaxUsers cfg channel) = false ->
  wrongPassword channel (JoinPayload.password payload) = false ->
  members_keyed before ->
  exists p',
    join_room cfg socketId now payload st p =
      (p',
       [Join socketId channelId;
        Emit (Socket socketId) "room-users"
          (JObj [("roomId", JStr channelId);
                 ("users", JArr (map publicUser peers));
                 ("maxUsers", JNum (effectiveMaxUsers cfg channel))]);
        Emit (RoomExcept channelId socketId) "user-joined"
          (JObj [("socketId", JStr socketId);
                 ("name", JStr (Member.name member))]);
        broadcastChannelsState st p'])
    /\ membersOf p' channelId = set before socketId member
    /\ get (membersOf p' channelId) socketId = Some member
    /\ get (Presence.socketChannelMap p') socketId = Some channelId
    /\ Forall (fun m => Member.socketId m <> socketId) peers
    /\ (has before socketId = false -> peers = values before).
Proof.
  intros channelId before member peers Hne G Full W K.
  rewrite join_room_unfold. cbv zeta. fold channelId before.
  apply is_empty_false in Hne. rewrite Hne, G, Full, W.
  fold member. eexists. split.
  - unfold othersOf. rewrite others_set by (auto; reflexivity). reflexivity.
  - match goal with
    | |- membersOf ?q _ = _ /\ _ =>
        assert (M : membersOf q channelId = set before socketId member)
          by (unfold membersOf; simpl; now rewrite get_set_same)
    end.
    rewrite M. simpl. rewrite !get_set_same. repeat split.
    + apply Forall_forall. intros m Hm. apply filter_In in Hm.
      destruct Hm as [_ Hm]. apply negb_true_iff in Hm.
      now apply jsstring_eqb_neq.
    + intros Habs. now apply others_absent.
Qed.

(** C10. A refused join (its action list carries a [join-error], whose
    code is then [CHANNEL_NOT_FOUND], [ROOM_FULL] or [WRONG_PASSWORD]) emits
    that error to the requester and nothing else, so no [channels-state]
    broadcast; the snapshot, the online users of every channel id and the
    reverse map are what they were, also when the handler has put an empty
    member map in place. *)
Theorem rejected_join_leaves_snapshot (socketId now : jsstring)
    (payload : JoinPayload.t) (st : Store.t) (p : Presence.t)
    (code : string) :
  let p' := fst (join_room cfg socketId now payload st p) in
  let actions := snd (join_room cfg socketId now payload st p) in
  In (join_error socketId code) actions ->
  actions = [join_error socketId code]
  /\ (forall payload', ~ In (Emit All "channels-state" payload') actions)
  /\ buildChannelsState st p' = buildChannelsState st p
  /\ (forall c, onlineUsersOf (get (Presence.channelMembers p') c)
                = onlineUsersOf (get (Presence.channelMembers p) c))
  /\ Presence.socketChannelMap p' = Presence.socketChannelMap p.
Proof.
  intros p' actions. subst p' actions. rewrite join_room_unfold. cbv zeta.
  destruct (is_empty _); [intros []|].
  destruct (getChannel st _) as [channel|].
  2:{ simpl. intros [E|[]]. rewrite E. repeat split; auto.
      intros payload' [X|[]]. discriminate X. }
  assert (R : forall c0,
             In (join_error socketId code) [join_error socketId c0] ->
             let p1 :=
               {| Presence.channelMembers :=
                    match get (Presence.channelMembers p)
                            (trim (or_empty (JoinPayload.roomId payload))) with
                    | Some _ => Presence.channelMembers p
                    | None =>
                        set (Presence.channelMembers p)
                          (trim (or_empty (JoinPayload.roomId payload))) []
                    end;
                  Presence.socketChannelMap := Presence.socketChannelMap p |} in
             [join_error socketId c0] = [join_error socketId code]
             /\ (forall payload',
                   ~ In (Emit All "channels-state" payload')
                       [join_error socketId c0])
             /\ buildChannelsState st p1 = buildChannelsState st p
             /\ (forall c, onlineUsersOf (get (Presence.channelMembers p1) c)
                           = onlineUsersOf (get (Presence.channelMembers p) c))
             /\ Presence.socketChannelMap p1 = Presence.socketChannelMap p).
  { intros c0 [E|[]] p1. rewrite E. split; [reflexivity|].
    split; [intros payload' [X|[]]; discriminate X|].
    assert (Hu : forall c,
               onlineUsersOf (get (Presence.channelMembers p1) c)
               = onlineUsersOf (get (Presence.channelMembers p) c))
      by (intros c; apply onlineUsers_empty_map).
    split; [now apply buildChannelsState_ext|]. split; [exact Hu|reflexivity]. }
  destruct (num_ge _ _); [exact (R "ROOM_FULL")|].
  destruct (wrongPassword _ _); [exact (R "WRONG_PASSWORD")|].
  simpl. intros [E|[E|[E|[E|[]]]]]; discriminate E.
Qed.

(** ** Members under their own connection id *)

Lemma join_room_presence_keyed (socketId now : jsstring)
    (payload : JoinPayload.t) (st : Store.t) (p : Presence.t) :
  presence_keyed p ->
  presence_keyed (fst (join_room cfg socketId now payload st p)).
Proof.
  intros K. rewrite join_room_unfold. cbv zeta.
  assert (K1 : presence_keyed
                 {| Presence.channelMembers :=
                      match get (Presence.channelMembers p)
                              (trim (or_empty (JoinPayload.roomId payload))) with
                      | Some _ => Presence.channelMembers p
                      | None =>
                          set (Presence.channelMembers p)
                            (trim (or_empty (JoinPayload.roomId payload))) []
                      end;
                    Presence.socketChannelMap := Presence.socketChannelMap p |}).
  { unfold presence_keyed. simpl.
    destruct (get (Presence.channelMembers p) _); [exact K|].
    apply Forall_set; [exact K | constructor]. }
  destruct (is_empty _); [exact K|].
  destruct (getChannel st _); [|exact K].
  destruct (num_ge _ _); [exact K1|].
  destruct (wrongPassword _ _); [exact K1|].
  unfold presence_keyed. simpl. apply Forall_set; [exact K1|]. simpl.
  apply Forall_set; [|reflexivity].
  now apply members_keyed_membersOf.
Qed.

Lemma disconnect_presence_keyed (socketId : jsstring) (st : Store.t)
    (p : Presence.t) :
  presence_keyed p -> presence_keyed (fst (disconnect socketId st p)).
Proof.
  intros K. unfold disconnect.
  destruct (nonempty _) as [channelId|]; [|exact K].
  destruct (get (Presence.channelMembers p) channelId) as [members|] eqn:G;
    [|exact K].
  destruct (has members socketId); [|exact K].
  assert (K1 : Forall (fun kv => members_keyed (snd kv))
                 (set (Presence.channelMembers p) channelId
                    (delete members socketId))).
  { apply Forall_set; [exact K|]. simpl. apply Forall_delete.
    apply get_In in G. unfold presence_keyed in K.
    rewrite Forall_forall in K. exact (K _ G). }
  unfold presence_keyed.
  destruct (size (delete members socketId) =? 0)%nat; simpl;
    [now apply Forall_delete | exact K1].
Qed.

Lemma run_presence_keyed (st : Store.t) (es : list event) (p : Presence.t) :
  presence_keyed p -> presence_keyed (run cfg st p es).
Proof.
  unfold run. revert p. induction es as [|e es IH]; intros p K; simpl; auto.
  apply IH. destruct e as [socketId now payload|socketId]; simpl.
  - now apply join_room_presence_keyed.
  - now apply disconnect_presence_keyed.
Qed.

End Admission.

(** ** The reverse map names a channel the connection is in *)

Section MapDelete.
Context {V : Type}.
Implicit Types (m : jsmap V) (k : jsstring) (v : V).

Lemma get_delete_other m k k' : k <> k' -> get (delete m k) k' = get m k'.
Proof.
  intros N. apply jsstring_eqb_neq in N.
  induction m as [|[k0 v0] m IH]; simpl; auto.
  destruct (jsstring_eqb k0 k) eqn:E; simpl.
  - apply jsstring_eqb_eq in E; subst k0. now rewrite N.
  - now rewrite IH.
Qed.

Lemma get_not_In m k : ~ In k (keys m) -> get m k = None.
Proof.
  intros N. pose proof (proj2 (has_false_not_In m k) N) as N'.
  clear N; rename N' into N. unfold has in N.
  destruct (get m k); [discriminate | reflexivity].
Qed.

Lemma get_delete_same m k : NoDup (keys m) -> get (delete m k) k = None.
Proof.
  induction m as [|[k0 v0] m IH]; simpl; auto.
  intros ND. inversion ND as [|? ? Hk ND']; subst.
  destruct (jsstring_eqb k0 k) eqn:E; simpl.
  - apply jsstring_eqb_eq in E; subst k0. now apply get_not_In.
  - rewrite E. auto.
Qed.

Lemma keys_delete_incl m k x : In x (keys (delete m k)) -> In x (keys m).
Proof.
  induction m as [|[k0 v0] m IH]; simpl; auto.
  destruct (jsstring_eqb k0 k); simpl; tauto.
Qed.

Lemma NoDup_keys_delete m k : NoDup (keys m) -> NoDup (keys (delete m k)).
Proof.
  induction m as [|[k0 v0] m IH]; simpl; auto.
  intros ND. inversion ND as [|? ? Hk ND']; subst.
  destruct (jsstring_eqb k0 k); simpl; auto.
  constructor; auto. intros Hin. apply Hk. eapply keys_delete_incl; eauto.
Qed.

End MapDelete.

Lemma membersOf_set (cm : jsmap (jsmap Member.t)) (scm : jsmap jsstring)
    (c0 c : jsstring) (ms : jsmap Member.t) :
  membersOf (Presence.mk (set cm c0 ms) scm) c
  = if jsstring_eqb c0 c then ms else membersOf (Presence.mk cm scm) c.
Proof.
  unfold membersOf. simpl. destruct (jsstring_eqb c0 c) eqn:E.
  - apply jsstring_eqb_eq in E; subst c. now rewrite get_set_same.
  - apply jsstring_eqb_neq in E. now rewrite get_set_other.
Qed.

Lemma membersOf_empty_map (p : Presence.t) (c0 c : jsstring) :
  membersOf
    {| Presence.channelMembers :=
         match get (Presence.channelMembers p) c0 with
         | Some _ => Presence.channelMembers p
         | None => set (Presence.channelMembers p) c0 []
         end;
       Presence.socketChannelMap := Presence.socketChannelMap p |} c
  = membersOf p c.
Proof.
  destruct (get (Presence.channelMembers p) c0) eqn:G; [reflexivity|].
  rewrite membersOf_set. destruct (jsstring_eqb c0 c) eqn:E.
  - apply jsstring_eqb_eq in E; subst c. unfold membersOf. now rewrite G.
  - reflexivity.
Qed.

Section ReverseMap.
Variable cfg : Config.t.

Lemma join_room_reverse_map (socketId now : jsstring)
    (payload : JoinPayload.t) (st : Store.t) (p : Presence.t) :
  reverse_map_sound p ->
  reverse_map_sound (fst (join_room cfg socketId now payload st p)).
Proof.
  intros [ND I]. rewrite join_room_unfold. cbv zeta.
  set (channelId := trim (or_empty (JoinPayload.roomId payload))).
  assert (R1 : reverse_map_sound
                 {| Presence.channelMembers :=
                      match get (Presence.channelMembers p) channelId with
                      | Some _ => Presence.channelMembers p
                      | None => set (Presence.channelMembers p) channelId []
                      end;
                    Presence.socketChannelMap := Presence.socketChannelMap p |}).
  { split; [exact ND|]. intros s c G. rewrite membersOf_empty_map.
    now apply I. }
  destruct (is_empty channelId) eqn:Hne; [split; assumption|].
  destruct (getChannel st channelId); [|split; assumption].
  destruct (num_ge _ _); [exact R1|].
  destruct (wrongPassword _ _); [exact R1|].
  split; simpl.
  - now apply NoDup_keys_set.
  - intros s c G. rewrite membersOf_set.
    destruct (jsstring_eqb socketId s) eqn:Es.
    + apply jsstring_eqb_eq in Es; subst s.
      rewrite get_set_same in G. injection G as <-.
      rewrite jsstring_eqb_refl. split; [exact Hne|].
      unfold has. now rewrite get_set_same.
    + apply jsstring_eqb_neq in Es. rewrite get_set_other in G by exact Es.
      destruct (I s c G) as [Hc Hs]. split; [exact Hc|].
      destruct (jsstring_eqb channelId c) eqn:Ec.
      * apply jsstring_eqb_eq in Ec; subst c.
        unfold has. rewrite get_set_other by exact Es. exact Hs.
      * destruct R1 as [_ I1]. apply (I1 s c G).
Qed.

Lemma disconnect_reverse_map (socketId : jsstring) (st : Store.t)
    (p : Presence.t) :
  reverse_map_sound p ->
  reverse_map_sound (fst (disconnect socketId st p)).
Proof.
  intros [ND I]. unfold disconnect.
  destruct (nonempty (get (Presence.socketChannelMap p) socketId))
    as [channelId|] eqn:Hc; [|split; assumption].
  assert (Hother : forall s c,
             get (delete (Presence.socketChannelMap p) socketId) s = Some c ->
             s <> socketId /\ get (Presence.socketChannelMap p) s = Some c).
  { intros s c G. destruct (jsstring_eqb socketId s) eqn:Es.
    - apply jsstring_eqb_eq in Es; subst s.
      rewrite get_delete_same in G by exact ND. discriminate G.
    - apply jsstring_eqb_neq in Es.
      rewrite get_delete_other in G by exact Es. split; [congruence|exact G]. }
  destruct (get (Presence.channelMembers p) channelId) as [members|] eqn:G.
  2:{ split; simpl; [now apply NoDup_keys_delete|].
      intros s c Gs. destruct (Hother s c Gs) as [_ Gs']. now apply I. }
  destruct (has members socketId) eqn:Hm.
  2:{ split; simpl; [now apply NoDup_keys_delete|].
      intros s c Gs. destruct (Hother s c Gs) as [_ Gs']. now apply I. }
  split; [simpl; now apply NoDup_keys_delete|]. simpl.
  intros s c Gs. destruct (Hother s c Gs) as [Hs Gs'].
  destruct (I s c Gs') as [Hcne Hin]. split; [exact Hcne|].
  destruct (jsstring_eqb channelId c) eqn:Ec.
  - apply jsstring_eqb_eq in Ec; subst c.
    assert (Hin' : has (delete members socketId) s = true).
    { unfold membersOf in Hin. rewrite G in Hin. unfold has in *.
      rewrite get_delete_other by congruence. exact Hin. }
    destruct (delete members socketId) as [|kv rest] eqn:D;
      [discriminate Hin'|].
    simpl. rewrite membersOf_set, jsstring_eqb_refl. exact Hin'.
  - assert (Hc' : membersOf
                    (Presence.mk
                       (set (Presence.channelMembers p) channelId
                          (delete members socketId))
                       (delete (Presence.socketChannelMap p) socketId)) c
                  = membersOf p c).
    { rewrite membersOf_set, Ec. reflexivity. }
    apply jsstring_eqb_neq in Ec.
    destruct (size (delete members socketId) =? 0)%nat.
    + unfold membersOf. simpl. rewrite get_delete_other by exact Ec.
      rewrite get_set_other by exact Ec. exact Hin.
    + rewrite Hc'. exact Hin.
Qed.

(** Starting from empty maps, whatever events are handled, the channel the
    reverse map gives for a connection is not empty-named and has the
    connection among its members. *)
Lemma run_reverse_map (st : Store.t) (es : list event) (p : Presence.t) :
  reverse_map_sound p -> reverse_map_sound (run cfg st p es).
Proof.
  unfold run. revert p. induction es as [|e es IH]; intros p K; simpl; auto.
  apply IH. destruct e as [socketId now payload|socketId]; simpl.
  - now apply join_room_reverse_map.
  - now apply disconnect_reverse_map.
Qed.

End ReverseMap.

Lemma reverse_map_sound_empty : reverse_map_sound no_presence.
Proof. split; [constructor | intros s c G; discriminate G]. Qed.

(** C2, at a second join. A connection that has joined [coop] and then
    joins [squad] is left in the member map of [coop] while the reverse map
    names [squad] alone; its disconnection then clears [squad] and the
    reverse map, and [coop] keeps listing it. *)
Theorem second_join_keeps_first_membership :
  exists st,
    @loadChannelsFromDisk basicHost (str "2024-01-01")
      (fresh false None true 0) = Some (Returned tt, st)
    /\ let cfg := @config basicHost (fun _ => None) in
       let s := str "socket-1" in
       let join room :=
         EvJoin s (str "2024-01-02")
           (JoinPayload.mk (Some (str room)) (Some (str "Ann")) None) in
       let empty := Presence.mk [] [] in
       let p := run cfg st empty [join "coop"; join "squad"] in
       let p' := run cfg st empty [join "coop"; join "squad"; EvDisconnect s] in
       has (membersOf p (str "coop")) s = true
       /\ has (membersOf p (str "squad")) s = true
       /\ get (Presence.socketChannelMap p) s = Some (str "squad")
       /\ has (membersOf p' (str "coop")) s = true
       /\ has (membersOf p' (str "squad")) s = false
       /\ get (Presence.socketChannelMap p') s = None.
Proof.
  eexists. split; [vm_compute; reflexivity|]. vm_compute. repeat split.
Qed.


(** ** The properties on concrete requests *)

(** Two channels named [General] get the ids [general] and [general-k3x]. *)
Example same_slug_ids :
  option_map (fun st => map Channel.id (getChannels st))
    (@execAll basicHost (fresh true None true 0)
       [Create (CreateParams.mk (Some (str "General")) None None) (str "t1");
        Create (CreateParams.mk (Some (str " general ")) None None) (str "t2")])
  = Some [str "general"; str "general-k3x"].
Proof. vm_compute. reflexivity. Qed.

(** A white-space name against the seeded registry. *)
Lemma createChannel_name_required_witness :
  trim (or_empty (CreateParams.name
                    (CreateParams.mk (Some (str "   ")) None None))) = []
  /\ @createChannel basicHost (CreateParams.mk (Some (str "   ")) None None)
       (str "2024-01-02") demo_boot
     = Some (Threw NAME_REQUIRED, demo_boot)
  /\ @post_channels basicHost (CreateParams.mk (Some (str "   ")) None None)
       (str "2024-01-02") demo_boot no_presence
     = Some ([Respond 400 (error_body "NAME_REQUIRED")], demo_boot).
Proof.
  split; [reflexivity|].
  apply (@createChannel_name_required basicHost). reflexivity.
Defined.

(** [MAX_ROOM_USERS=5] and a create call without capacity: the channel gets
    capacity 10, not 5. *)
Lemma default_capacity_is_not_configured :
  let cfg :=
    @config basicHost
      (fun k => if String.eqb k "MAX_ROOM_USERS" then Some (str "5") else None) in
  let params := CreateParams.mk (Some (str "General")) None None in
  Config.maxRoomUsers cfg = num_of_Z 5
  /\ CreateParams.maxUsers params = None
  /\ exists ch st',
       @createChannel basicHost params (str "2024-01-02") demo_boot
       = Some (Returned ch, st')
       /\ Channel.maxUsers ch = num_of_Z 10
       /\ num_eqb (Channel.maxUsers ch) (Config.maxRoomUsers cfg) = false
       /\ Channel.maxUsers ch <> Config.maxRoomUsers cfg.
Proof.
  cbv zeta. split; [reflexivity|]. split; [reflexivity|].
  eexists _, _. split; [vm_compute; reflexivity|].
  cbn [Channel.maxUsers]. split; [reflexivity|]. split; [reflexivity|].
  vm_compute. discriminate.
Qed.

Lemma createChannel_default_capacity_witness :
  let cfg :=
    @config basicHost
      (fun k => if String.eqb k "MAX_ROOM_USERS" then Some (str "5") else None) in
  let params := CreateParams.mk (Some (str "General")) (Some (num_of_Z 0)) None in
  (trim (or_empty (CreateParams.name params)) <> []
   /\ Store.writable demo_boot = true
   /\ num_gt0 (Number_opt (CreateParams.maxUsers params)) = false)
  /\ exists ch st',
       @createChannel basicHost params (str "2024-01-02") demo_boot
       = Some (Returned ch, st')
       /\ get (Store.channels st') (Channel.id ch) = Some ch
       /\ Channel.maxUsers ch = ten
       /\ effectiveMaxUsers cfg ch = ten.
Proof.
  cbv zeta.
  assert (Hn : trim (or_empty (CreateParams.name
                 (CreateParams.mk (Some (str "General"))
                    (Some (num_of_Z 0)) None))) <> [])
    by (vm_compute; discriminate).
  split; [split; [exact Hn | split; reflexivity]|].
  apply (@createChannel_default_capacity basicHost);
    [exact Hn | reflexivity | reflexivity].
Defined.

(** The file system refuses the write: the call throws and the map has the
    new channel all the same, while the file has three channels. *)
Lemma write_failure_leaves_channel_in_memory :
  let st :=
    {| Store.channels := Store.channels demo_boot;
       Store.dataDir := Store.dataDir demo_boot;
       Store.channelsFile := Store.channelsFile demo_boot;
       Store.writable := false;
       Store.draws := Store.draws demo_boot;
       Store.truncates := false |} in
  exists st',
    @createChannel basicHost (CreateParams.mk (Some (str "General")) None None)
      (str "2024-01-02") st = Some (Threw FsError, st')
    /\ has (Store.channels st) (str "general") = false
    /\ has (Store.channels st') (str "general") = true
    /\ Store.channels st' <> Store.channels st
    /\ Store.channelsFile st'
       = Some (Parsed (JArr (map json_of_channel (getChannels st)))).
Proof.
  cbv zeta. eexists. split; [vm_compute; reflexivity|].
  split; [reflexivity|]. split; [reflexivity|].
  split; [|reflexivity].
  intros E. apply (f_equal (fun m => has m (str "general"))) in E.
  vm_compute in E. discriminate E.
Qed.

Lemma createChannel_write_failure_witness :
  let st :=
    {| Store.channels := Store.channels demo_boot;
       Store.dataDir := Store.dataDir demo_boot;
       Store.channelsFile := Store.channelsFile demo_boot;
       Store.writable := false;
       Store.draws := Store.draws demo_boot;
       Store.truncates := true |} in
  let params := CreateParams.mk (Some (str "General")) None None in
  (trim (or_empty (CreateParams.name params)) <> []
   /\ Store.writable st = false)
  /\ exists st',
       @createChannel basicHost params (str "2024-01-02") st
       = Some (Threw FsError, st')
       /\ @post_channels basicHost params (str "2024-01-02") st no_presence
          = Some ([Respond 500 (error_body "INTERNAL_ERROR")], st')
       /\ exists id ch,
            has (Store.channels st) id = false
            /\ Channel.id ch = id
            /\ Store.channels st' = set (Store.channels st) id ch.
Proof.
  cbv zeta.
  assert (Hn : trim (or_empty (CreateParams.name
                 (CreateParams.mk (Some (str "General")) None None))) <> [])
    by (vm_compute; discriminate).
  split; [split; [exact Hn | reflexivity]|].
  apply (@createChannel_write_failure basicHost); [exact Hn | reflexivity].
Defined.


(** [socket-2] joins [coop] where [socket-1] sits: the peer list is Ann. *)
Lemma join_room_admitted_witness :
  let payload := demo_join "coop" "Bob" None in
  let channelId := str "coop" in
  (trim (or_empty (JoinPayload.roomId payload)) <> []
   /\ option_map Channel.id (getChannel demo_boot channelId) = Some channelId
   /\ members_keyed (membersOf demo_coop_one channelId))
  /\ exists p' member,
       snd (join_room demo_cfg (str "socket-2") (str "2024-01-04") payload
              demo_boot demo_coop_one)
       = [Join (str "socket-2") channelId;
          Emit (Socket (str "socket-2")) "room-users"
            (JObj [("roomId", JStr channelId);
                   ("users",
                    JArr [JObj [("socketId", JStr (str "socket-1"));
                                ("name", JStr (str "Ann"))]]);
                   ("maxUsers", JNum ten)]);
          Emit (RoomExcept channelId (str "socket-2")) "user-joined"
            (JObj [("socketId", JStr (str "socket-2"));
                   ("name", JStr (str "Bob"))]);
          broadcastChannelsState demo_boot p']
       /\ get (membersOf p' channelId) (str "socket-2") = Some member
       /\ get (Presence.socketChannelMap p') (str "socket-2") = Some channelId.
Proof.
  cbv zeta.
  assert (Hn : trim (or_empty (JoinPayload.roomId
                 (demo_join "coop" "Bob" None))) <> [])
    by (vm_compute; discriminate).
  assert (Hk : members_keyed (membersOf demo_coop_one (str "coop")))
    by (vm_compute; repeat constructor).
  split; [split; [exact Hn | split; [reflexivity | exact Hk]]|].
  destruct (getChannel demo_boot (str "coop")) as [channel|] eqn:G;
    [|vm_compute in G; discriminate G].
  destruct (join_room_admitted demo_cfg (str "socket-2") (str "2024-01-04")
              (demo_join "coop" "Bob" None) demo_boot demo_coop_one channel
              Hn)
    as (p' & E & _ & M & R & _).
  - exact G.
  - vm_compute in G. injection G as <-. vm_compute. reflexivity.
  - vm_compute in G. injection G as <-. vm_compute. reflexivity.
  - exact Hk.
  - eexists p', _. rewrite E. cbn [snd]. split; [|split; [exact M | exact R]].
    vm_compute in G. injection G as <-. reflexivity.
Defined.

(** The registry with the secret of [duo] changed has the same snapshot. *)
Lemma snapshot_hides_secret_witness :
  let st' :=
    snd (updateChannel (str "duo")
           (Patch.mk None None (Some (Some (str "other")))) demo_duo) in
  option_map Channel.passwordHash (getChannel demo_duo (str "duo"))
    = Some (Some (str "pw"))
  /\ option_map Channel.passwordHash (getChannel st' (str "duo"))
     = Some (Some (str "other"))
  /\ map without_secret (getChannels st') = map without_secret (getChannels demo_duo)
  /\ buildChannelsState st' demo_duo_full = buildChannelsState demo_duo demo_duo_full.
Proof.
  cbv zeta. split; [reflexivity|]. split; [reflexivity|].
  assert (E : map without_secret
                (getChannels
                   (snd (updateChannel (str "duo")
                           (Patch.mk None None (Some (Some (str "other"))))
                           demo_duo)))
              = map without_secret (getChannels demo_duo))
    by (vm_compute; reflexivity).
  split; [exact E|].
  apply (proj2 (snapshot_hides_secret demo_duo demo_duo_full)). exact E.
Defined.

(** A wrong password on [duo] before anybody has joined: the handler puts
    an empty member map in place and the snapshot does not move. *)
Lemma rejected_join_leaves_snapshot_witness :
  let payload := demo_join "duo" "Bob" (Some (str "nope")) in
  let result :=
    join_room demo_cfg (str "socket-2") (str "2024-01-04") payload demo_duo
      no_presence in
  In (join_error (str "socket-2") "WRONG_PASSWORD") (snd result)
  /\ Presence.channelMembers (fst result) = [(str "duo", [])]
  /\ snd result = [join_error (str "socket-2") "WRONG_PASSWORD"]
  /\ buildChannelsState demo_duo (fst result)
     = buildChannelsState demo_duo no_presence.
Proof.
  cbv zeta.
  assert (Hin : In (join_error (str "socket-2") "WRONG_PASSWORD")
                  (snd (join_room demo_cfg (str "socket-2") (str "2024-01-04")
                          (demo_join "duo" "Bob" (Some (str "nope")))
                          demo_duo no_presence)))
    by (vm_compute; left; reflexivity).
  split; [exact Hin|]. split; [vm_compute; reflexivity|].
  destruct (rejected_join_leaves_snapshot demo_cfg (str "socket-2")
              (str "2024-01-04") (demo_join "duo" "Bob" (Some (str "nope")))
              demo_duo no_presence "WRONG_PASSWORD" Hin)
    as (E & _ & S & _).
  split; [exact E | exact S].
Defined.


(** * Further properties of the store *)

Lemma values_app {K V : Type} (m1 m2 : list (K * V)) :
  values (m1 ++ m2) = values m1 ++ values m2.
Proof. unfold values. apply map_app. Qed.

Lemma save_outcome (st : Store.t) :
  (Store.writable st = true
   /\ fst (saveChannelsToDisk st) = Returned tt
   /\ synced (snd (saveChannelsToDisk st)))
  \/ (Store.writable st = false
      /\ fst (saveChannelsToDisk st) = Threw FsError
      /\ (Store.truncates st = false -> snd (saveChannelsToDisk st) = st)).
Proof.
  destruct (Store.writable st) eqn:W.
  - left. rewrite (save_writable st W). simpl. repeat split.
  - right. split; [reflexivity|].
    destruct (save_unwritable st W) as (st' & E & _). rewrite E.
    split; [reflexivity|]. intros T.
    rewrite (save_refused st W T) in E. now injection E as <-.
Qed.

Section StoreMore.
Context {H : Host}.

(** X1. A [createChannel] that returns has put the new channel at the end
    of the list under an id that was free; the channels that were there are
    the same, in the same order, and the file holds the whole new list. *)
Theorem createChannel_appends (params : CreateParams.t) (now : jsstring)
    (st st' : Store.t) (ch : Channel.t) :
  createChannel params now st = Some (Returned ch, st') ->
  getChannels st' = getChannels st ++ [ch]
  /\ has (Store.channels st) (Channel.id ch) = false
  /\ getChannel st' (Channel.id ch) = Some ch
  /\ (forall id, id <> Channel.id ch -> getChannel st' id = getChannel st id)
  /\ synced st'.
Proof.
  destruct (trim (or_empty (CreateParams.name params))) as [|c name] eqn:E.
  { unfold createChannel. rewrite E. discriminate. }
  destruct (createChannel_spec params now st) as (id & d & Hf & _ & Hc).
  { rewrite E. discriminate. }
  cbv zeta in Hc. rewrite Hc. clear Hc.
  match goal with
  | |- context [saveChannelsToDisk ?s] =>
      pose proof (save_channels s) as S; pose proof (save_outcome s) as O;
      destruct (saveChannelsToDisk s) as [[u|e] st2]
  end; [|discriminate].
  intros [= <- <-]. simpl in *. unfold getChannels, getChannel.
  rewrite S. simpl. rewrite set_fresh by exact Hf.
  split; [now rewrite values_app|]. split; [exact Hf|].
  rewrite <- set_fresh by exact Hf. split; [apply get_set_same|].
  split.
  - intros id' N. apply get_set_other. congruence.
  - destruct O as [(_ & _ & Sy)|(_ & [=] & _)]. exact Sy.
Qed.

(** X2. [updateChannel] on an id the map does not have answers [null] and
    touches neither the map nor the file system. *)
Theorem updateChannel_unknown (id : jsstring) (patch : Patch.t)
    (st : Store.t) :
  getChannel st id = None ->
  updateChannel id patch st = (Returned None, st).
Proof.
  unfold getChannel, updateChannel. now intros ->.
Qed.

(** What [updateChannel] does once the channel is found. *)
Lemma updateChannel_found (id : jsstring) (patch : Patch.t) (st : Store.t)
    (existing : Channel.t) :
  get (Store.channels st) id = Some existing ->
  exists updated,
    Channel.id updated = Channel.id existing
    /\ Channel.createdAt updated = Channel.createdAt existing
    /\ Channel.name updated
       = match Patch.name patch with
         | Some nm => if is_empty (trim nm) then Channel.name existing else trim nm
         | None => Channel.name existing
         end
    /\ Channel.maxUsers updated
       = match Patch.maxUsers patch with
         | Some n =>
             if isFinite n && num_gt0 n then n else Channel.maxUsers existing
         | None => Channel.maxUsers existing
         end
    /\ (Channel.hasPassword updated, Channel.passwordHash updated)
       = match Patch.password patch with
         | Some pw => (isSome (nonempty pw), nonempty pw)
         | None => (Channel.hasPassword existing, Channel.passwordHash existing)
         end
    /\ updateChannel id patch st
       = match saveChannelsToDisk
                 (with_channels st (set (Store.channels st) id updated)) with
         | (Threw e, st2) => (Threw e, st2)
         | (Returned _, st2) => (Returned (Some updated), st2)
         end.
Proof.
  intros G. unfold updateChannel. rewrite G.
  destruct (Patch.password patch) as [pw|];
    match goal with
    | |- context [set (Store.channels st) id ?u] => exists u
    end; repeat split.
Qed.

(** X3. [updateChannel] on a known id keeps the channel's id, creation
    time and place in the list and leaves every other channel alone. The
    name changes only to a non-empty trimmed name, the capacity only to a
    finite positive number. The change is made in memory whether or not the
    write succeeds; when it succeeds the file holds the new list, and when
    the file system refuses it the file is as it was. *)
Theorem updateChannel_known (id : jsstring) (patch : Patch.t)
    (st : Store.t) (existing : Channel.t) :
  getChannel st id = Some existing ->
  exists updated,
    getChannel (snd (updateChannel id patch st)) id = Some updated
    /\ keys (Store.channels (snd (updateChannel id patch st)))
       = keys (Store.channels st)
    /\ (forall id', id' <> id ->
          getChannel (snd (updateChannel id patch st)) id' = getChannel st id')
    /\ Channel.id updated = Channel.id existing
    /\ Channel.createdAt updated = Channel.createdAt existing
    /\ Channel.name updated
       = match Patch.name patch with
         | Some nm => if is_empty (trim nm) then Channel.name existing else trim nm
         | None => Channel.name existing
         end
    /\ Channel.maxUsers updated
       = match Patch.maxUsers patch with
         | Some n =>
             if isFinite n && num_gt0 n then n else Channel.maxUsers existing
         | None => Channel.maxUsers existing
         end
    /\ (if Store.writable st
        then fst (updateChannel id patch st) = Returned (Some updated)
             /\ synced (snd (updateChannel id patch st))
        else fst (updateChannel id patch st) = Threw FsError
             /\ (Store.truncates st = false ->
                 Store.channelsFile (snd (updateChannel id patch st))
                 = Store.channelsFile st)).
Proof.
  unfold getChannel. intros G.
  destruct (updateChannel_found id patch st existing G)
    as (updated & Hid & Hcr & Hnm & Hmx & _ & Hu).
  assert (Hhas : has (Store.channels st) id = true)
    by (unfold has; now rewrite G).
  exists updated. rewrite Hu. clear Hu.
  set (st1 := with_channels st (set (Store.channels st) id updated)).
  pose proof (save_channels st1) as S. pose proof (save_outcome st1) as O.
  assert (W1 : Store.writable st1 = Store.writable st) by reflexivity.
  destruct O as [(W & E1 & Sy)|(W & E2 & R)].
  - rewrite W1 in W. rewrite W.
    destruct (saveChannelsToDisk st1) as [[u|e] st2]; [|discriminate E1].
    simpl in *. rewrite S.
    split; [apply get_set_same|]. split; [now apply keys_set_present|].
    split; [intros id' N; apply get_set_other; congruence|].
    repeat (split; [assumption|]). split; [reflexivity | exact Sy].
  - rewrite W1 in W. rewrite W.
    destruct (saveChannelsToDisk st1) as [[u|e] st2]; [discriminate E2|].
    simpl in *. rewrite S.
    split; [apply get_set_same|]. split; [now apply keys_set_present|].
    split; [intros id' N; apply get_set_other; congruence|].
    repeat (split; [assumption|]). split; [congruence|].
    intros T. now rewrite (R T).
Qed.

End StoreMore.


(** ** Passwords *)

Lemma nonempty_Some (pw : option jsstring) (s : jsstring) :
  nonempty pw = Some s <-> pw = Some s /\ s <> [].
Proof.
  destruct pw as [[|c pw]|]; simpl.
  - split; [discriminate | intros [[= <-] N]; congruence].
  - split; [intros [= <-]; split; [reflexivity | discriminate]|].
    intros [[= <-] _]. reflexivity.
  - split; [discriminate | intros [[=] _]].
Qed.

(** X4. The password test of [join-room] lets a request through exactly
    when the channel is not flagged as protected, or the request carries a
    non-empty password equal to the stored secret. A channel flagged as
    protected without a stored secret refuses every password. *)
Theorem wrongPassword_iff (channel : Channel.t) (password : option jsstring) :
  (wrongPassword channel password = false
   <-> Channel.hasPassword channel = false
       \/ exists s, s <> [] /\ password = Some s
                    /\ Channel.passwordHash channel = Some s)
  /\ (Channel.hasPassword channel = true ->
      Channel.passwordHash channel = None ->
      wrongPassword channel password = true).
Proof.
  unfold wrongPassword.
  destruct (Channel.hasPassword channel) eqn:HP.
  2:{ split; [tauto | discriminate]. }
  split.
  - split.
    + intros W. right. apply orb_false_iff in W. destruct W as [W1 W2].
      apply negb_false_iff, jsstring_eqb_eq in W2.
      apply is_empty_false in W1.
      destruct (nonempty password) as [s|] eqn:N; [|now elim W1].
      simpl in *. apply nonempty_Some in N. destruct N as [-> Hs].
      exists s. repeat split; auto.
      destruct (Channel.passwordHash channel) as [h|]; simpl in W2;
        [now subst h | now elim Hs].
    + intros [[=]|(s & Hs & -> & ->)].
      destruct s as [|c s]; [congruence|]. simpl.
      now rewrite N.eqb_refl, jsstring_eqb_refl.
  - intros _ ->. simpl.
    destruct (nonempty password) as [[|c s]|] eqn:N; simpl; auto.
Qed.

(** X5. A patch with a [password] field replaces the protection: a
    non-empty string becomes the secret and only that string opens the
    channel afterwards; [null] or the empty string removes the protection
    and every request passes the password test. A patch without the field
    leaves flag and secret as they were. *)
Theorem updateChannel_password (id : jsstring) (patch : Patch.t)
    (st : Store.t) (existing : Channel.t) :
  getChannel st id = Some existing ->
  exists updated,
    getChannel (snd (updateChannel id patch st)) id = Some updated
    /\ match Patch.password patch with
       | None =>
           Channel.hasPassword updated = Channel.hasPassword existing
           /\ Channel.passwordHash updated = Channel.passwordHash existing
       | Some pw =>
           Channel.hasPassword updated = isSome (nonempty pw)
           /\ Channel.passwordHash updated = nonempty pw
           /\ forall pw',
                wrongPassword updated pw' = false
                <-> nonempty pw = None \/ nonempty pw' = nonempty pw
       end.
Proof.
  unfold getChannel. intros G.
  destruct (updateChannel_found id patch st existing G)
    as (updated & _ & _ & _ & _ & Hpw & Hu).
  exists updated. rewrite Hu.
  match goal with
  | |- context [saveChannelsToDisk ?s] =>
      pose proof (save_channels s) as S;
      destruct (saveChannelsToDisk s) as [[u|e] st2]
  end; simpl in *; rewrite S, get_set_same; (split; [reflexivity|]);
    destruct (Patch.password patch) as [pw|]; injection Hpw as HP HH;
    try (split; assumption);
    (split; [assumption|]); (split; [assumption|]); intros pw';
    unfold wrongPassword; rewrite HP, HH;
    destruct (nonempty pw) as [s|] eqn:N; simpl;
    try (split; [auto | reflexivity]);
    apply nonempty_Some in N; destruct N as [_ Hs];
    (destruct (nonempty pw') as [s'|] eqn:N'; simpl;
     [apply nonempty_Some in N'; destruct N' as [_ Hs'];
      apply is_empty_false in Hs'; rewrite Hs'; simpl;
      rewrite negb_false_iff, jsstring_eqb_eq;
      split; [intros ->; now right | intros [[=]|[= ->]]; reflexivity]
     | split; [discriminate | intros [[=]|[=]]]]).
Qed.


(** ** What every channel of the registry satisfies *)

Lemma Forall_values {K V : Type} (Q : V -> Prop) (m : list (K * V)) :
  Forall (fun kv => Q (snd kv)) m <-> Forall Q (values m).
Proof. unfold values. now rewrite Forall_map. Qed.

Lemma num_gt0_truthy (n : jsnum) : num_gt0 n = true -> num_truthy n = true.
Proof.
  destruct n as [| | |q]; simpl; try discriminate; auto.
  intros G. apply Z.ltb_lt in G. apply negb_true_iff, Z.eqb_neq. lia.
Qed.

Section StoreInvariant.
Context {H : Host}.
Variable Q : Channel.t -> Prop.
Variable ok : call -> Prop.

Hypothesis Q_create :
  forall params now id,
    ok (Create params now) ->
    id <> [] ->
    trim (or_empty (CreateParams.name params)) <> [] ->
    Q {| Channel.id := id;
         Channel.name := trim (or_empty (CreateParams.name params));
         Channel.maxUsers :=
           if num_gt0 (Number_opt (CreateParams.maxUsers params))
           then Number_opt (CreateParams.maxUsers params) else ten;
         Channel.hasPassword := isSome (nonempty (CreateParams.password params));
         Channel.passwordHash := nonempty (CreateParams.password params);
         Channel.createdAt := JStr now |}.

Hypothesis Q_update :
  forall patch existing updated,
    Q existing ->
    Channel.id updated = Channel.id existing ->
    Channel.createdAt updated = Channel.createdAt existing ->
    Channel.name updated
    = match Patch.name patch with
      | Some nm => if is_empty (trim nm) then Channel.name existing else trim nm
      | None => Channel.name existing
      end ->
    Channel.maxUsers updated
    = match Patch.maxUsers patch with
      | Some n => if isFinite n && num_gt0 n then n else Channel.maxUsers existing
      | None => Channel.maxUsers existing
      end ->
    (Channel.hasPassword updated, Channel.passwordHash updated)
    = match Patch.password patch with
      | Some pw => (isSome (nonempty pw), nonempty pw)
      | None => (Channel.hasPassword existing, Channel.passwordHash existing)
      end ->
    Q updated.

Lemma exec_preserves (c : call) (st st' : Store.t) :
  ok c ->
  Forall (fun kv => Q (snd kv)) (Store.channels st) ->
  exec st c = Some st' ->
  Forall (fun kv => Q (snd kv)) (Store.channels st').
Proof.
  intros Hok F. destruct c as [params now|id patch|b]; simpl.
  - assert (Hcase : trim (or_empty (CreateParams.name params)) = []
                    \/ trim (or_empty (CreateParams.name params)) <> [])
      by (destruct (trim _); [now left | right; discriminate]).
    destruct Hcase as [E|E].
    { unfold createChannel. rewrite E. simpl. now intros [= <-]. }
    destruct (createChannel_spec params now st E) as (id & d & _ & Hid & Hc).
    cbv zeta in Hc. rewrite Hc. clear Hc.
    match goal with
    | |- context [saveChannelsToDisk ?s] =>
        pose proof (save_channels s) as S;
        destruct (saveChannelsToDisk s) as [[u|e] st2]
    end; simpl in *; intros [= <-]; rewrite S;
      (apply Forall_set; [exact F|]); simpl; now apply Q_create.
  - intros [= <-].
    destruct (get (Store.channels st) id) as [existing|] eqn:G.
    2:{ unfold updateChannel. rewrite G. exact F. }
    destruct (updateChannel_found id patch st existing G)
      as (updated & H1 & H2 & H3 & H4 & H5 & Hu).
    rewrite Hu.
    match goal with
    | |- context [saveChannelsToDisk ?s] =>
        pose proof (save_channels s) as S;
        destruct (saveChannelsToDisk s) as [[u|e] st2]
    end; simpl in *; rewrite S;
      (apply Forall_set; [exact F|]); simpl;
      apply (Q_update patch existing); auto;
      apply get_In in G; rewrite Forall_forall in F; exact (F _ G).
  - intros [= <-]. exact F.
Qed.

Lemma execAll_preserves (cs : list call) (st st' : Store.t) :
  Forall ok cs ->
  Forall (fun kv => Q (snd kv)) (Store.channels st) ->
  execAll st cs = Some st' ->
  Forall (fun kv => Q (snd kv)) (Store.channels st').
Proof.
  intros Hok. revert st. induction Hok as [|c cs Hc Hcs IH]; intros st F; simpl.
  - now intros [= <-].
  - destruct (exec st c) as [st1|] eqn:E; [|discriminate].
    apply IH. eapply exec_preserves; eauto.
Qed.

End StoreInvariant.


Section OwnCapacity.
Context {H : Host}.

Lemma loadEntry_own_capacity (now : jsstring) (chs chs' : registry)
    (ch : json) :
  Forall (fun kv => own_capacity (snd kv)) chs ->
  loadEntry now chs ch = Some chs' ->
  Forall (fun kv => own_capacity (snd kv)) chs'.
Proof.
  intros F. unfold loadEntry.
  destruct (truthy (Some ch) && truthy (prop ch "id")
            && truthy (prop ch "name")); [|now intros [= <-]].
  destruct (prop ch "id") as [id|]; [|now intros [= <-]].
  destruct (prop ch "name") as [nm|]; [|now intros [= <-]].
  destruct (String_json id) as [id'|]; try discriminate.
  destruct (String_json nm) as [name|]; try discriminate.
  destruct (Number_json _) as [n|]; try discriminate.
  match goal with
  | |- match ?a with _ => _ end = _ -> _ => destruct a; try discriminate
  end.
  intros [= <-]. apply Forall_setKey; [exact F|].
  unfold own_capacity, num_or. simpl.
  destruct (num_truthy n) eqn:Tr; [exact Tr | reflexivity].
Qed.

Lemma loadEntries_own_capacity (now : jsstring) (parsed : list json)
    (chs chs' : registry) :
  Forall (fun kv => own_capacity (snd kv)) chs ->
  loadEntries now chs parsed = Some chs' ->
  Forall (fun kv => own_capacity (snd kv)) chs'.
Proof.
  revert chs. induction parsed as [|ch rest IH]; intros chs F; simpl.
  - now intros [= <-].
  - destruct (loadEntry now chs ch) as [chs1|] eqn:E; [|discriminate].
    apply IH. eapply loadEntry_own_capacity; eauto.
Qed.

Lemma reseed_own_capacity (now : jsstring) (st : Store.t) :
  Forall (fun kv => own_capacity (snd kv))
    (Store.channels (snd (reseed now st))).
Proof.
  unfold reseed. rewrite save_channels. simpl. repeat constructor.
Qed.

Lemma load_own_capacity (now : jsstring) (st st' : Store.t)
    (o : outcome unit) :
  Forall (fun kv => own_capacity (snd kv)) (Store.channels st) ->
  loadChannelsFromDisk now st = Some (o, st') ->
  Forall (fun kv => own_capacity (snd kv)) (Store.channels st').
Proof.
  intros F. unfold loadChannelsFromDisk.
  assert (E0 : Store.channels (snd (ensureDataDir st)) = Store.channels st).
  { unfold ensureDataDir.
    destruct (Store.dataDir st), (Store.writable st); reflexivity. }
  destruct (ensureDataDir st) as [[u|e] st0]; simpl in E0.
  2:{ intros [= _ <-]. now rewrite E0. }
  rewrite <- E0 in F.
  destruct (Store.channelsFile st0) as [[|j]|].
  - intros [= E]. pose proof (reseed_own_capacity now st0) as R.
    now rewrite E in R.
  - destruct j; try (intros [= _ <-]; assumption).
    destruct (loadEntries now (Store.channels st0) l) as [chs|] eqn:L.
    + intros [= _ <-]. simpl. eapply loadEntries_own_capacity; eauto.
    + intros [= E]. pose proof (reseed_own_capacity now st0) as R.
      now rewrite E in R.
  - intros [= E].
    match type of E with
    | saveChannelsToDisk ?s = _ => pose proof (save_channels s) as S
    end.
    rewrite E in S. cbn [snd] in S. rewrite S. simpl.
    repeat (apply Forall_set; [|reflexivity]).
    exact F.
Qed.

(** The loader answers on every file, and every run of calls on every
    registry. *)
Lemma load_returns (now : jsstring) (st : Store.t) :
  exists o st', loadChannelsFromDisk now st = Some (o, st').
Proof.
  unfold loadChannelsFromDisk.
  destruct (ensureDataDir st) as [[u|e] st0]; [|eauto].
  destruct (Store.channelsFile st0) as [[|j]|].
  - destruct (reseed now st0); eauto.
  - destruct j; eauto.
    destruct (loadEntries now (Store.channels st0) l); eauto.
    destruct (reseed now st0); eauto.
  - destruct (saveChannelsToDisk _); eauto.
Qed.

Lemma execAll_returns (cs : list call) (st : Store.t) :
  exists st', execAll st cs = Some st'.
Proof.
  revert st. induction cs as [|c cs IH]; intros st; simpl; [eauto|].
  destruct c as [params now|id patch|b]; simpl.
  - destruct (createChannel_returns params now st) as (r & ->). simpl.
    apply IH.
  - apply IH.
  - apply IH.
Qed.

(** X6. From the start of the process on any file and any file system,
    however the load ends, and through any run of create and update calls,
    every channel of the registry has a truthy capacity. The fall-back to
    [config.maxRoomUsers] in the [join-room] handler is therefore never
    taken: the effective capacity is the channel's own, whatever the
    configuration. *)
Theorem capacity_is_the_channels_own (cfg : Config.t) (now : jsstring)
    (truncates dataDir : bool) (file : option content) (writable : bool)
    (draws : nat) (calls : list call) :
  exists o st st',
    loadChannelsFromDisk now (fresh_on truncates dataDir file writable draws)
    = Some (o, st)
    /\ execAll st calls = Some st'
    /\ forall ch,
         In ch (getChannels st') ->
         num_truthy (Channel.maxUsers ch) = true
         /\ effectiveMaxUsers cfg ch = Channel.maxUsers ch.
Proof.
  destruct (load_returns now
              (fresh_on truncates dataDir file writable draws))
    as (o & st & L).
  destruct (execAll_returns calls st) as (st' & E).
  exists o, st, st'. split; [exact L|]. split; [exact E|].
  intros ch Hin.
  assert (F0 : Forall (fun kv => own_capacity (snd kv)) (Store.channels st)).
  { eapply load_own_capacity; [|exact L]. constructor. }
  assert (F : Forall (fun kv => own_capacity (snd kv)) (Store.channels st')).
  { eapply (execAll_preserves own_capacity (fun _ => True)); try exact E; auto.
    - intros params now0 id _ Hid Hn. unfold own_capacity. simpl.
      destruct (num_gt0 _) eqn:G; [now apply num_gt0_truthy | reflexivity].
    - intros patch existing updated Qm _ _ _ Hm _.
      unfold own_capacity in *.
      rewrite Hm. destruct (Patch.maxUsers patch) as [n|]; auto.
      destruct (isFinite n && num_gt0 n) eqn:Em; auto.
      apply andb_true_iff in Em. now apply num_gt0_truthy.
    - apply Forall_forall. auto. }
  apply Forall_values in F. rewrite Forall_forall in F.
  specialize (F ch Hin). split; [exact F|].
  unfold effectiveMaxUsers, num_or. now rewrite F.
Qed.

(** X7. Create and update calls keep the password flag and the secret
    together: when every channel's flag says whether a non-empty secret is
    stored, this still holds after any run of calls, and every protected
    channel has a password that passes the test of [join-room]. *)
Theorem secret_kept_consistent (st st' : Store.t) (calls : list call)
    (ch : Channel.t) :
  Forall secret_consistent (getChannels st) ->
  execAll st calls = Some st' ->
  In ch (getChannels st') ->
  secret_consistent ch
  /\ (Channel.hasPassword ch = true ->
      exists s, s <> [] /\ Channel.passwordHash ch = Some s
                /\ wrongPassword ch (Some s) = false).
Proof.
  intros F0 E Hin. apply Forall_values in F0.
  assert (F : Forall (fun kv => secret_consistent (snd kv)) (Store.channels st')).
  { eapply (execAll_preserves secret_consistent (fun _ => True));
      try exact E; auto.
    - intros params now0 id _ _ _. split; simpl; [reflexivity|].
      destruct (CreateParams.password params) as [[|c s]|]; discriminate.
    - intros patch existing updated (Q1 & Q2) _ _ _ _ Hp.
      destruct (Patch.password patch) as [pw|]; injection Hp as HP HH;
        unfold secret_consistent; rewrite HP, HH; split; auto.
      destruct pw as [[|c s]|]; discriminate.
    - apply Forall_forall. auto. }
  apply Forall_values in F. rewrite Forall_forall in F.
  specialize (F ch Hin). split; [exact F|].
  destruct F as [Hf Hn]. intros HP. rewrite HP in Hf.
  destruct (Channel.passwordHash ch) as [s|] eqn:Hh; [|discriminate Hf].
  exists s. assert (Hs : s <> []) by (intros ->; now apply Hn).
  repeat split; auto.
  unfold wrongPassword. rewrite HP, Hh.
  destruct s as [|c s]; [now elim Hs|]. simpl.
  now rewrite N.eqb_refl, jsstring_eqb_refl.
Qed.


End OwnCapacity.


Section Seeding.
Context {H : Host}.

(** X9. A process that finds no file, or a file that does not parse,
    seeds the registry (three default channels, or the single channel
    [general]). With a writable file system the load returns, the file
    holds the seeds, and the seeds are stored under their ids, come back
    from a reload and have consistent password flags; otherwise the load
    throws the file system's error and writes nothing. *)
Theorem load_seeds_registry (now : jsstring) (dataDir writable : bool)
    (file : option content) (draws : nat) :
  now <> [] ->
  file = None \/ file = Some Unparsable ->
  exists o st,
    loadChannelsFromDisk now (fresh dataDir file writable draws) = Some (o, st)
    /\ (if writable
        then o = Returned tt
             /\ synced st
             /\ map Channel.id (getChannels st)
                = match file with
                  | None => [str "dota 2"; str "coop"; str "squad"]
                  | Some _ => [str "general"]
                  end
             /\ keyed (Store.channels st)
             /\ Forall persistable (getChannels st)
             /\ Forall secret_consistent (getChannels st)
        else o = Threw FsError
             /\ Store.channelsFile st = file).
Proof.
  intros Hnow Hfile.
  assert (P : forall id name,
             id <> [] -> name <> [] -> persistable (seed now id name))
    by (intros id name Hi Hn; repeat split; auto; try discriminate;
        simpl; apply negb_true_iff, is_empty_false; exact Hnow).
  assert (S : forall id name, secret_consistent (seed now id name))
    by (intros id name; split; [reflexivity | discriminate]).
  destruct writable, dataDir, Hfile as [-> | ->];
    eexists _, _; (split; [vm_compute; reflexivity|]); cbv beta iota;
    try (split; reflexivity);
    (split; [reflexivity|]); (split; [split; reflexivity|]);
    (split; [reflexivity|]);
    (split; [split; [repeat constructor; simpl; intuition discriminate
                    | repeat constructor]|]);
    split; repeat constructor; try apply S; try (apply P; discriminate).
Qed.

End Seeding.


(** * Further properties of the server *)

Section MapSizes.
Context {V : Type}.
Implicit Types (m : jsmap V) (k : jsstring) (v : V).

Lemma size_set m k v :
  size (set m k v) = if has m k then size m else S (size m).
Proof.
  unfold has, size. induction m as [|[k' v'] m IH]; simpl; auto.
  destruct (jsstring_eqb k' k); simpl; auto.
  rewrite IH. destruct (get m k); reflexivity.
Qed.

Lemma size_delete m k :
  size (delete m k) = if has m k then pred (size m) else size m.
Proof.
  unfold has, size. induction m as [|[k' v'] m IH]; simpl; auto.
  destruct (jsstring_eqb k' k) eqn:E; simpl; auto.
  rewrite IH. destruct (get m k) eqn:G; auto.
  destruct m; [discriminate G | reflexivity].
Qed.

Lemma delete_absent m k : has m k = false -> delete m k = m.
Proof.
  unfold has. induction m as [|[k' v'] m IH]; simpl; auto.
  destruct (jsstring_eqb k' k); [discriminate|].
  intros G. now rewrite IH.
Qed.

Lemma delete_set_fresh m k v : has m k = false -> delete (set m k v) k = m.
Proof.
  unfold has. induction m as [|[k' v'] m IH]; simpl.
  - now rewrite jsstring_eqb_refl.
  - destruct (jsstring_eqb k' k) eqn:E; [discriminate|]. simpl. rewrite E.
    intros G. now rewrite IH.
Qed.

Lemma set_same m k v : get m k = Some v -> set m k v = m.
Proof.
  induction m as [|[k' v'] m IH]; simpl; [discriminate|].
  destruct (jsstring_eqb k' k); [now intros [= ->]|].
  intros G. now rewrite IH.
Qed.

Lemma set_set m k v v' : set (set m k v) k v' = set m k v'.
Proof.
  induction m as [|[k0 v0] m IH]; simpl.
  - now rewrite jsstring_eqb_refl.
  - destruct (jsstring_eqb k0 k) eqn:E; simpl; rewrite E; [reflexivity|].
    now rewrite IH.
Qed.

End MapSizes.

Lemma num_ge_mono (m n : nat) (e : jsnum) :
  m <= n -> num_ge (num_of_nat n) e = false -> num_ge (num_of_nat m) e = false.
Proof.
  intros Hle. destruct e as [| | |y]; simpl; auto.
  intros Hn. destruct (Qle_bool y (inject_Z (Z.of_nat m))) eqn:Hm; auto.
  apply Qle_bool_iff in Hm.
  assert (Hy : Qle y (inject_Z (Z.of_nat n))).
  { eapply Qle_trans; [exact Hm|]. rewrite <- Zle_Qle. lia. }
  apply Qle_bool_iff in Hy. congruence.
Qed.

Lemma nodup_membersOf (p : Presence.t) (c : jsstring) :
  presence_nodup p -> NoDup (keys (membersOf p c)).
Proof.
  intros (_ & _ & F). unfold membersOf.
  destruct (get (Presence.channelMembers p) c) as [ms|] eqn:G.
  - apply get_In in G. rewrite Forall_forall in F. exact (F _ G).
  - constructor.
Qed.

Section Occupancy.
Variable cfg : Config.t.

Lemma join_room_presence_nodup (socketId now : jsstring)
    (payload : JoinPayload.t) (st : Store.t) (p : Presence.t) :
  presence_nodup p ->
  presence_nodup (fst (join_room cfg socketId now payload st p)).
Proof.
  intros K. rewrite join_room_unfold. cbv zeta.
  set (channelId := trim (or_empty (JoinPayload.roomId payload))).
  assert (K1 : presence_nodup
                 {| Presence.channelMembers :=
                      match get (Presence.channelMembers p) channelId with
                      | Some _ => Presence.channelMembers p
                      | None => set (Presence.channelMembers p) channelId []
                      end;
                    Presence.socketChannelMap := Presence.socketChannelMap p |}).
  { destruct K as (K1 & K2 & K3). unfold presence_nodup. simpl.
    destruct (get (Presence.channelMembers p) channelId);
      [repeat split; assumption|].
    split; [now apply NoDup_keys_set|]. split; [assumption|].
    apply Forall_set; [assumption | constructor]. }
  destruct (is_empty channelId); [exact K|].
  destruct (getChannel st channelId); [|exact K].
  destruct (num_ge _ _); [exact K1|].
  destruct (wrongPassword _ _); [exact K1|].
  pose proof (nodup_membersOf p channelId K) as Kb.
  destruct K1 as (K1 & K2 & K3). unfold presence_nodup. simpl.
  split; [now apply NoDup_keys_set|]. split; [now apply NoDup_keys_set|].
  apply Forall_set; [assumption|]. simpl. now apply NoDup_keys_set.
Qed.

Lemma disconnect_presence_nodup (socketId : jsstring) (st : Store.t)
    (p : Presence.t) :
  presence_nodup p -> presence_nodup (fst (disconnect socketId st p)).
Proof.
  intros (K1 & K2 & K3). unfold disconnect.
  destruct (nonempty _) as [channelId|]; [|repeat split; assumption].
  assert (K2' : NoDup (keys (delete (Presence.socketChannelMap p) socketId)))
    by now apply NoDup_keys_delete.
  destruct (get (Presence.channelMembers p) channelId) as [members|] eqn:G;
    [|repeat split; assumption].
  destruct (has members socketId); [|repeat split; assumption].
  assert (Km : NoDup (keys (delete members socketId))).
  { apply NoDup_keys_delete. apply get_In in G.
    rewrite Forall_forall in K3. exact (K3 _ G). }
  unfold presence_nodup.
  destruct (size (delete members socketId) =? 0)%nat; simpl;
    (split; [|split; [assumption|]]).
  - now apply NoDup_keys_delete, NoDup_keys_set.
  - apply Forall_delete. now apply Forall_set.
  - now apply NoDup_keys_set.
  - now apply Forall_set.
Qed.

Lemma join_room_within_capacity (socketId now : jsstring)
    (payload : JoinPayload.t) (st : Store.t) (p : Presence.t) :
  within_capacity cfg st p ->
  within_capacity cfg st (fst (join_room cfg socketId now payload st p)).
Proof.
  intros I. rewrite join_room_unfold. cbv zeta.
  set (channelId := trim (or_empty (JoinPayload.roomId payload))).
  assert (R1 : within_capacity cfg st
                 {| Presence.channelMembers :=
                      match get (Presence.channelMembers p) channelId with
                      | Some _ => Presence.channelMembers p
                      | None => set (Presence.channelMembers p) channelId []
                      end;
                    Presence.socketChannelMap := Presence.socketChannelMap p |}).
  { intros c ch G. rewrite membersOf_empty_map. now apply I. }
  destruct (is_empty channelId); [exact I|].
  destruct (getChannel st channelId) as [channel|] eqn:G; [|exact I].
  destruct (num_ge _ _) eqn:Full; [exact R1|].
  destruct (wrongPassword _ _); [exact R1|].
  intros c ch Gc. simpl. rewrite membersOf_set.
  destruct (jsstring_eqb channelId c) eqn:Ec.
  - apply jsstring_eqb_eq in Ec. subst c. rewrite G in Gc.
    injection Gc as <-. rewrite size_set.
    destruct (has (membersOf p channelId) socketId).
    + now apply I.
    + right. exact Full.
  - destruct (R1 c ch Gc) as [Z|B]; [left; exact Z | right; exact B].
Qed.

Lemma disconnect_within_capacity (socketId : jsstring) (st : Store.t)
    (p : Presence.t) :
  presence_nodup p ->
  within_capacity cfg st p ->
  within_capacity cfg st (fst (disconnect socketId st p)).
Proof.
  intros (K1 & _ & _) I. unfold disconnect.
  destruct (nonempty _) as [channelId|]; [|exact I].
  destruct (get (Presence.channelMembers p) channelId) as [members|] eqn:G.
  2:{ intros c ch Gc. apply (I c ch Gc). }
  destruct (has members socketId) eqn:Hm.
  2:{ intros c ch Gc. apply (I c ch Gc). }
  assert (Hmem : membersOf p channelId = members)
    by (unfold membersOf; now rewrite G).
  intros c ch Gc.
  destruct (jsstring_eqb channelId c) eqn:Ec.
  - apply jsstring_eqb_eq in Ec. subst c.
    destruct (size (delete members socketId) =? 0)%nat eqn:Sz.
    + left. unfold membersOf. simpl.
      rewrite get_delete_same by now apply NoDup_keys_set.
      reflexivity.
    + simpl. rewrite membersOf_set, jsstring_eqb_refl.
      destruct (I channelId ch Gc) as [Z|B]; rewrite Hmem in *.
      { destruct members; [discriminate Hm | discriminate Z]. }
      right. rewrite size_delete, Hm.
      eapply num_ge_mono; [|exact B]. lia.
  - assert (Hc : forall scm,
               membersOf
                 (Presence.mk
                    (set (Presence.channelMembers p) channelId
                       (delete members socketId)) scm) c
               = membersOf p c).
    { intros scm. rewrite membersOf_set, Ec. reflexivity. }
    apply jsstring_eqb_neq in Ec.
    destruct (size (delete members socketId) =? 0)%nat; simpl.
    + unfold membersOf. simpl. rewrite get_delete_other by exact Ec.
      rewrite get_set_other by exact Ec. apply (I c ch Gc).
    + rewrite Hc. apply (I c ch Gc).
Qed.

Lemma run_within_capacity (st : Store.t) (es : list event) (p : Presence.t) :
  presence_nodup p ->
  within_capacity cfg st p ->
  presence_nodup (run cfg st p es) /\ within_capacity cfg st (run cfg st p es).
Proof.
  unfold run. revert p. induction es as [|e es IH]; intros p K I; simpl; auto.
  destruct e as [socketId now payload|socketId]; simpl; apply IH.
  - now apply join_room_presence_nodup.
  - now apply join_room_within_capacity.
  - now apply disconnect_presence_nodup.
  - now apply disconnect_within_capacity.
Qed.

(** X10. Against a fixed registry and starting from empty tables, no run
    of joins and disconnections puts more members into a channel than its
    effective capacity: with an integer capacity [n] the member map of the
    channel never has more than [n] entries (none when [n] is not
    positive). *)
Theorem occupancy_within_capacity (st : Store.t) (es : list event)
    (c : jsstring) (ch : Channel.t) (n : Z) :
  getChannel st c = Some ch ->
  effectiveMaxUsers cfg ch = num_of_Z n ->
  (Z.of_nat (size (membersOf (run cfg st no_presence es) c)) <= Z.max n 0)%Z.
Proof.
  intros G E.
  destruct (run_within_capacity st es no_presence) as [_ I].
  { repeat split; constructor. }
  { intros c0 ch0 _. now left. }
  destruct (I c ch G) as [Z|B].
  - rewrite Z. simpl. lia.
  - rewrite E in B. simpl in B.
    destruct (size (membersOf (run cfg st no_presence es) c)) as [|k];
      [simpl; lia|].
    simpl pred in B.
    destruct (Qle_bool (inject_Z n) (inject_Z (Z.of_nat k))) eqn:Q;
      [discriminate B|].
    assert (Hlt : ~ (n <= Z.of_nat k)%Z).
    { intros Hle. rewrite Zle_Qle in Hle. apply Qle_bool_iff in Hle.
      congruence. }
    lia.
Qed.

End Occupancy.


Lemma onlineUsersOf_membersOf (p : Presence.t) (c : jsstring) :
  onlineUsersOf (get (Presence.channelMembers p) c)
  = map publicUser (values (membersOf p c)).
Proof.
  unfold membersOf. destruct (get (Presence.channelMembers p) c); reflexivity.
Qed.

Lemma nonempty_id (s : jsstring) : is_empty s = false -> nonempty (Some s) = Some s.
Proof. destruct s; [discriminate | reflexivity]. Qed.

(** X11. [disconnect] for a connection the reverse map does not know does
    nothing and emits nothing. For a connection recorded in a channel it
    emits [user-left] to the channel and then the broadcast of the new
    state; afterwards the reverse map has no entry for the connection, the
    channel no longer lists it, and every other member, connection and
    channel is as before. *)
Theorem disconnect_removes (socketId : jsstring) (st : Store.t)
    (p : Presence.t) :
  presence_nodup p ->
  reverse_map_sound p ->
  match get (Presence.socketChannelMap p) socketId with
  | None => disconnect socketId st p = (p, [])
  | Some channelId =>
      let p' := fst (disconnect socketId st p) in
      snd (disconnect socketId st p)
      = [Emit (RoomExcept channelId socketId) "user-left"
           (JObj [("socketId", JStr socketId)]);
         broadcastChannelsState st p']
      /\ get (Presence.socketChannelMap p') socketId = None
      /\ has (membersOf p' channelId) socketId = false
      /\ (forall s, s <> socketId ->
            get (membersOf p' channelId) s = get (membersOf p channelId) s)
      /\ (forall s, s <> socketId ->
            get (Presence.socketChannelMap p') s
            = get (Presence.socketChannelMap p) s)
      /\ (forall c, c <> channelId -> membersOf p' c = membersOf p c)
  end.
Proof.
  intros K [ND I]. unfold disconnect.
  destruct (get (Presence.socketChannelMap p) socketId) as [channelId|] eqn:G;
    [|reflexivity].
  destruct (I _ _ G) as [Hne Hin].
  rewrite (nonempty_id channelId Hne).
  pose proof (nodup_membersOf p channelId K) as NDm.
  destruct K as (K1 & _ & _).
  unfold membersOf in Hin, NDm.
  destruct (get (Presence.channelMembers p) channelId) as [members|] eqn:Gm;
    [|discriminate Hin].
  assert (Hmem : membersOf p channelId = members)
    by (unfold membersOf; now rewrite Gm).
  rewrite Hin. cbv zeta. cbn [fst snd app].
  split; [reflexivity|].
  split; [simpl; now apply get_delete_same|].
  match goal with
  | |- has (membersOf ?p' channelId) _ = _ /\ _ =>
      assert (Hc : membersOf p' channelId = delete members socketId)
  end.
  { destruct (size (delete members socketId) =? 0)%nat eqn:Sz.
    - apply Nat.eqb_eq in Sz. unfold membersOf. simpl.
      rewrite get_delete_same by now apply NoDup_keys_set.
      destruct (delete members socketId); [reflexivity | discriminate Sz].
    - rewrite membersOf_set. now rewrite jsstring_eqb_refl. }
  rewrite Hc, Hmem.
  split; [unfold has; now rewrite get_delete_same|].
  split; [intros s Hs; apply get_delete_other; congruence|].
  split; [intros s Hs; simpl; apply get_delete_other; congruence|].
  intros c Hcne.
  destruct (size (delete members socketId) =? 0)%nat.
  - unfold membersOf. simpl. rewrite get_delete_other by congruence.
    now rewrite get_set_other by congruence.
  - rewrite membersOf_set.
    assert (E : jsstring_eqb channelId c = false)
      by (apply jsstring_eqb_neq; congruence).
    now rewrite E.
Qed.

Section JoinLeave.
Variable cfg : Config.t.

(** X12. An admitted join by a connection that was in no channel, followed
    by its disconnection, leaves every channel with the members it had, the
    reverse map as it was and the snapshot unchanged. *)
Theorem join_then_disconnect (socketId now : jsstring)
    (payload : JoinPayload.t) (st : Store.t) (p : Presence.t)
    (channel : Channel.t) :
  let channelId := trim (or_empty (JoinPayload.roomId payload)) in
  let p1 := fst (join_room cfg socketId now payload st p) in
  let p2 := fst (disconnect socketId st p1) in
  presence_nodup p ->
  get (Presence.socketChannelMap p) socketId = None ->
  has (membersOf p channelId) socketId = false ->
  channelId <> [] ->
  getChannel st channelId = Some channel ->
  num_ge (num_of_nat (size (membersOf p channelId)))
    (effectiveMaxUsers cfg channel) = false ->
  wrongPassword channel (JoinPayload.password payload) = false ->
  (forall c, membersOf p2 c = membersOf p c)
  /\ Presence.socketChannelMap p2 = Presence.socketChannelMap p
  /\ buildChannelsState st p2 = buildChannelsState st p.
Proof.
  intros channelId p1 p2 K Gs Hfresh Hne G Full W.
  assert (Hm : forall c, membersOf p2 c = membersOf p c).
  { subst p2 p1. rewrite join_room_unfold. cbv zeta. fold channelId.
    apply is_empty_false in Hne. rewrite Hne, G, Full, W. cbn [fst].
    unfold disconnect. cbn [Presence.socketChannelMap Presence.channelMembers].
    rewrite !get_set_same, (nonempty_id channelId Hne).
    unfold has. rewrite !get_set_same.
    rewrite delete_set_fresh by exact Hfresh.
    set (cm0 := match get (Presence.channelMembers p) channelId with
                | Some _ => Presence.channelMembers p
                | None => set (Presence.channelMembers p) channelId []
                end).
    assert (ND0 : NoDup (keys cm0)).
    { destruct K as (K1 & _). subst cm0.
      destruct (get (Presence.channelMembers p) channelId); auto.
      now apply NoDup_keys_set. }
    assert (H0 : forall c,
               membersOf (Presence.mk cm0 (Presence.socketChannelMap p)) c
               = membersOf p c)
      by (intros c; apply membersOf_empty_map).
    intros c. cbn [fst]. rewrite set_set.
    destruct (jsstring_eqb channelId c) eqn:E.
    - apply jsstring_eqb_eq in E. subst c.
      destruct (size (membersOf p channelId) =? 0)%nat eqn:Sz.
      + apply Nat.eqb_eq in Sz. unfold membersOf at 1. simpl.
        rewrite get_delete_same by now apply NoDup_keys_set.
        destruct (membersOf p channelId); [reflexivity | discriminate Sz].
      + rewrite membersOf_set. now rewrite jsstring_eqb_refl.
    - destruct (size (membersOf p channelId) =? 0)%nat.
      + unfold membersOf at 1. simpl.
        apply jsstring_eqb_neq in E.
        rewrite get_delete_other, get_set_other by exact E.
        apply (H0 c).
      + rewrite membersOf_set, E. apply (H0 c). }
  split; [exact Hm|]. split.
  - subst p2 p1. rewrite join_room_unfold. cbv zeta. fold channelId.
    apply is_empty_false in Hne. rewrite Hne, G, Full, W. cbn [fst].
    unfold disconnect. cbn [Presence.socketChannelMap Presence.channelMembers].
    rewrite !get_set_same, (nonempty_id channelId Hne).
    unfold has. rewrite !get_set_same. cbn [fst Presence.socketChannelMap].
    apply delete_set_fresh. unfold has. now rewrite Gs.
  - apply buildChannelsState_ext. intros c.
    rewrite !onlineUsersOf_membersOf. now rewrite Hm.
Qed.

End JoinLeave.



(** * The shape of a slug *)

Lemma no_double_dash_spec (s : jsstring) :
  no_double_dash s = true <-> forall l1 l2, s <> l1 ++ dash :: dash :: l2.
Proof.
  induction s as [|a s IH].
  - split; [|reflexivity]. intros _ [|x l1] l2; discriminate.
  - destruct s as [|b s].
    + split; [|reflexivity]. intros _ [|x [|y l1]] l2; discriminate.
    + change (no_double_dash (a :: b :: s))
        with (negb ((a =? dash)%N && (b =? dash)%N) && no_double_dash (b :: s)).
      rewrite andb_true_iff, IH, negb_true_iff, andb_false_iff, !N.eqb_neq.
      split.
      * intros [Hab Hs] [|x l1] l2 E.
        -- injection E as -> ->. tauto.
        -- injection E as _ E. exact (Hs l1 l2 E).
      * intros Hall. split.
        -- destruct (N.eq_dec a dash) as [->|]; [|now left].
           destruct (N.eq_dec b dash) as [->|]; [|now right].
           exfalso. exact (Hall [] s eq_refl).
        -- intros l1 l2 E. apply (Hall (a :: l1) l2). simpl. now rewrite E.
Qed.

Lemma no_double_dash_rev (s : jsstring) :
  no_double_dash s = true -> no_double_dash (rev s) = true.
Proof.
  rewrite !no_double_dash_spec. intros Hs l1 l2 E.
  apply (Hs (rev l2) (rev l1)).
  rewrite <- (rev_involutive s), E, rev_app_distr. simpl.
  now rewrite <- !app_assoc.
Qed.

Lemma no_double_dash_tail (a : N) (s : jsstring) :
  no_double_dash (a :: s) = true -> no_double_dash s = true.
Proof.
  rewrite !no_double_dash_spec. intros Hs l1 l2 E.
  apply (Hs (a :: l1) l2). simpl. now rewrite E.
Qed.

Lemma stripLeadingDash_shape (s : jsstring) :
  no_double_dash s = true ->
  no_double_dash (stripLeadingDash s) = true
  /\ hd_error (stripLeadingDash s) <> Some dash.
Proof.
  destruct s as [|a s].
  - split; [reflexivity | discriminate].
  - intros Hs. cbn [stripLeadingDash]. destruct (a =? dash)%N eqn:E.
    + apply N.eqb_eq in E. subst a. split.
      * now apply no_double_dash_tail in Hs.
      * destruct s as [|b s]; [discriminate|]. simpl. intros [= ->].
        exact (proj1 (no_double_dash_spec _) Hs [] s eq_refl).
    + split; [exact Hs|]. simpl. intros [= ->]. now rewrite N.eqb_refl in E.
Qed.

Lemma stripLeadingDash_Forall (P : N -> Prop) (s : jsstring) :
  Forall P s -> Forall P (stripLeadingDash s).
Proof.
  intros F. destruct F as [|a s Pa F]; simpl; auto.
  destruct (a =? dash)%N; auto.
Qed.

Lemma strip_trailing_keeps_head (t : jsstring) :
  hd_error t <> Some dash ->
  hd_error (rev (stripLeadingDash (rev t))) <> Some dash.
Proof.
  intros Ht. destruct (rev t) as [|c r] eqn:E.
  - simpl. discriminate.
  - simpl. destruct (c =? dash)%N eqn:Ec.
    + apply N.eqb_eq in Ec. subst c.
      assert (Et : t = rev r ++ [dash])
        by (rewrite <- (rev_involutive t), E; reflexivity).
      destruct (rev r) as [|x l] eqn:Er.
      * rewrite Et in Ht. now elim Ht.
      * rewrite Et in Ht. exact Ht.
    + assert (Et : t = rev r ++ [c])
        by (rewrite <- (rev_involutive t), E; reflexivity).
      simpl. now rewrite <- Et.
Qed.

Lemma replaceRuns_chars (p : N -> bool) (b : bool) (s : jsstring) :
  Forall (fun c => c = dash \/ p c = false) (replaceRuns p [dash] b s).
Proof.
  revert b. induction s as [|c s IH]; intros b; simpl; [constructor|].
  destruct (p c) eqn:E.
  - destruct b; [apply IH|]. simpl. constructor; [now left | apply IH].
  - constructor; [now right | apply IH].
Qed.

Lemma replaceRuns_Forall (P : N -> Prop) (p : N -> bool) (b : bool)
    (s : jsstring) :
  P dash -> Forall P s -> Forall P (replaceRuns p [dash] b s).
Proof.
  intros Pd F. revert b. induction F as [|c s Pc F IH]; intros b; simpl;
    [constructor|].
  destruct (p c).
  - destruct b; [apply IH|]. simpl. constructor; [exact Pd | apply IH].
  - constructor; [exact Pc | apply IH].
Qed.

Lemma collapse_dashes_shape (b : bool) (s : jsstring) :
  no_double_dash (replaceRuns (N.eqb dash) [dash] b s) = true
  /\ (b = true ->
      hd_error (replaceRuns (N.eqb dash) [dash] b s) <> Some dash).
Proof.
  revert b. induction s as [|c s IH]; intros b; cbn [replaceRuns].
  - split; [reflexivity | discriminate].
  - destruct (dash =? c)%N eqn:E.
    + destruct b.
      * apply IH.
      * split; [|discriminate]. cbn [app].
        destruct (IH true) as [Hn Hh].
        destruct (replaceRuns (N.eqb dash) [dash] true s) as [|x out] eqn:Eo;
          [reflexivity|].
        change (negb ((dash =? dash)%N && (x =? dash)%N)
                && no_double_dash (x :: out) = true).
        rewrite Hn, andb_true_r, negb_true_iff, andb_false_iff. right.
        apply N.eqb_neq. intros ->. now apply Hh.
    + split.
      * destruct (IH false) as [Hn _].
        destruct (replaceRuns (N.eqb dash) [dash] false s) as [|x out] eqn:Eo;
          [reflexivity|].
        change (negb ((c =? dash)%N && (x =? dash)%N)
                && no_double_dash (x :: out) = true).
        rewrite Hn, andb_true_r, negb_true_iff, andb_false_iff. left.
        now rewrite N.eqb_sym.
      * intros _. simpl. intros [= ->]. now rewrite N.eqb_refl in E.
Qed.

Section Slug.
Context {H : Host}.

(** X14. [slugify] either falls back to [channel-] followed by at most six
    characters of a random draw, or draws nothing and returns a non-empty
    slug made of characters of the class and dashes, without two dashes in
    a row and without a dash at either end. *)
Theorem slugify_shape (name : jsstring) (d : nat) :
  (snd (slugify name d) = S d
   /\ fst (slugify name d) = str "channel-" ++ slice 2 8 (random36 d)
   /\ List.length (slice 2 8 (random36 d)) <= 6)
  \/ (snd (slugify name d) = d
      /\ fst (slugify name d) <> []
      /\ Forall (fun c => c = dash \/ in_class c = true) (fst (slugify name d))
      /\ no_double_dash (fst (slugify name d)) = true
      /\ hd_error (fst (slugify name d)) <> Some dash
      /\ hd_error (rev (fst (slugify name d))) <> Some dash).
Proof.
  unfold slugify.
  set (s1 := replaceRuns (fun c => negb (in_class c)) [dash] false
               (toLowerCase name)).
  set (s2 := replaceRuns (N.eqb dash) [dash] false s1).
  destruct (is_empty (stripDashEnds s2)) eqn:E; simpl.
  - left. repeat split. unfold slice. rewrite length_firstn. lia.
  - right. split; [reflexivity|]. split; [now apply is_empty_false|].
    assert (F1 : Forall (fun c => c = dash \/ in_class c = true) s1).
    { eapply Forall_impl; [|apply replaceRuns_chars].
      intros c [->|Hc]; [now left | right].
      now apply negb_false_iff in Hc. }
    assert (F2 : Forall (fun c => c = dash \/ in_class c = true) s2)
      by (apply replaceRuns_Forall; [now left | exact F1]).
    destruct (collapse_dashes_shape false s1) as [N2 _]. fold s2 in N2.
    destruct (stripLeadingDash_shape s2 N2) as [N3 H3].
    pose proof (no_double_dash_rev _ N3) as N4.
    destruct (stripLeadingDash_shape _ N4) as [N5 H5].
    unfold stripDashEnds. repeat split.
    + apply Forall_rev, stripLeadingDash_Forall, Forall_rev.
      now apply stripLeadingDash_Forall.
    + now apply no_double_dash_rev.
    + now apply strip_trailing_keeps_head.
    + now rewrite rev_involutive.
Qed.

(** X15. Whatever the environment holds, the configured port and room
    capacity are finite numbers: a variable that is unset, empty or not a
    finite number gives the default (3000, 10), any other gives its
    numeric value. No allowed origin is the empty string. *)
Theorem config_numbers_finite (env : string -> option jsstring) :
  isFinite (Config.port (config env)) = true
  /\ isFinite (Config.maxRoomUsers (config env)) = true
  /\ (forall name default,
        getEnvNumber env name default
        = match env name with
          | Some raw =>
              if negb (is_empty raw) && isFinite (stringToNumber raw)
              then stringToNumber raw else default
          | None => default
          end)
  /\ Forall (fun origin => origin <> []) (Config.allowedOrigins (config env)).
Proof.
  assert (G : forall name default,
             getEnvNumber env name default
             = match env name with
               | Some raw =>
                   if negb (is_empty raw) && isFinite (stringToNumber raw)
                   then stringToNumber raw else default
               | None => default
               end).
  { intros name default. unfold getEnvNumber.
    destruct (env name) as [raw|]; [|reflexivity].
    destruct (is_empty raw); simpl; reflexivity. }
  assert (Fin : forall name z, isFinite (getEnvNumber env name (num_of_Z z)) = true).
  { intros name z. rewrite G. destruct (env name) as [raw|]; [|reflexivity].
    destruct (negb (is_empty raw) && isFinite (stringToNumber raw)) eqn:E;
      [|reflexivity].
    now apply andb_true_iff in E. }
  split; [apply Fin|]. split; [apply Fin|]. split; [exact G|].
  simpl. apply Forall_forall. intros origin Hin.
  apply filter_In in Hin. destruct Hin as [_ Hne].
  apply negb_true_iff in Hne. now apply is_empty_false.
Qed.

End Slug.


(** * The older server with rooms *)

Lemma roomOf_has (socketId : jsstring) (rooms : jsmap (jsmap jsstring))
    (roomId : jsstring) (room : jsmap jsstring) :
  roomOf socketId rooms = Some (roomId, room) ->
  has room socketId = true /\ In (roomId, room) rooms.
Proof.
  induction rooms as [|[r0 m0] rooms IH]; simpl; [discriminate|].
  destruct (has m0 socketId) eqn:E.
  - intros [= <- <-]. auto.
  - intros G. destruct (IH G). auto.
Qed.

Section RoomServerFacts.
Variable cfg : Config.t.

(** X16. In the older server the password is tested before the capacity:
    a request to a protected room with another password gets
    [WRONG_PASSWORD] however full the room is, and [ROOM_FULL] is sent only
    to a request that passed the password test of a room at
    [config.maxRoomUsers]. Either way the room exists afterwards, made on
    demand. *)
Theorem room_join_password_first (socketId : jsstring)
    (payload : JoinPayload.t) (s : Rooms.t) (roomId : jsstring) :
  nonempty (JoinPayload.roomId payload) = Some roomId ->
  let actions := snd (room_join cfg socketId payload s) in
  let s' := fst (room_join cfg socketId payload s) in
  (forall roomPass,
     get (Rooms.roomPasswords s) roomId = Some roomPass ->
     roomPass <> [] ->
     or_empty (JoinPayload.password payload) <> roomPass ->
     actions = [join_error socketId "WRONG_PASSWORD"])
  /\ (In (join_error socketId "ROOM_FULL") actions ->
      actions = [join_error socketId "ROOM_FULL"]
      /\ (nonempty (get (Rooms.roomPasswords s) roomId) = None
          \/ get (Rooms.roomPasswords s) roomId
             = Some (or_empty (JoinPayload.password payload))))
  /\ has (Rooms.rooms s') roomId = true.
Proof.
  intros Hr actions s'. subst actions s'. unfold room_join. rewrite Hr.
  cbv zeta.
  set (rooms1 := if has (Rooms.rooms s) roomId then Rooms.rooms s
                 else set (Rooms.rooms s) roomId []).
  assert (H1 : has rooms1 roomId = true).
  { subst rooms1. destruct (has (Rooms.rooms s) roomId) eqn:E; [exact E|].
    unfold has. now rewrite get_set_same. }
  split; [|split].
  - intros roomPass G Hne Hdiff. rewrite G.
    apply is_empty_false in Hne. rewrite (nonempty_id _ Hne).
    assert (E : jsstring_eqb roomPass
                  (or_empty (JoinPayload.password payload)) = false)
      by (apply jsstring_eqb_neq; congruence).
    rewrite E. reflexivity.
  - destruct (nonempty (get (Rooms.roomPasswords s) roomId))
      as [roomPass|] eqn:N.
    + destruct (jsstring_eqb roomPass _) eqn:E; cbn [negb].
      * apply jsstring_eqb_eq in E. apply nonempty_Some in N.
        destruct N as [N _].
        destruct (num_ge _ _); cbn [snd].
        -- intros _. split; [reflexivity|]. right. congruence.
        -- intros [X|[X|[X|[]]]]; discriminate X.
      * intros [X|[]]. apply join_error_code in X. discriminate X.
    + destruct (num_ge _ _); cbn [snd].
      * intros _. split; [reflexivity | now left].
      * intros [X|[X|[X|[]]]]; discriminate X.
  - destruct (match nonempty (get (Rooms.roomPasswords s) roomId) with
              | Some roomPass => _
              | None => false
              end); [exact H1|].
    destruct (num_ge _ _); [exact H1|]. cbn [fst Rooms.rooms].
    unfold has. now rewrite get_set_same.
Qed.

End RoomServerFacts.

(** X17. In the older server, when the disconnection of a connection
    empties its room, the room and its password are both forgotten:
    [GET /rooms/:roomId] answers 404 and no password is on record, so the
    next join makes a new, unprotected room. While other members remain,
    room and password stay. *)
Theorem room_disconnect_forgets (socketId : jsstring) (s : Rooms.t)
    (roomId : jsstring) (room : jsmap jsstring) :
  NoDup (keys (Rooms.rooms s)) ->
  NoDup (keys (Rooms.roomPasswords s)) ->
  roomOf socketId (Rooms.rooms s) = Some (roomId, room) ->
  let s' := fst (room_disconnect socketId s) in
  snd (room_disconnect socketId s)
  = [Emit (RoomExcept roomId socketId) "user-left"
       (JObj [("socketId", JStr socketId)])]
  /\ if (size (delete room socketId) =? 0)%nat
     then get_room roomId s' = Respond 404 (JObj [("exists", JBool false)])
          /\ get (Rooms.roomPasswords s') roomId = None
     else get (Rooms.rooms s') roomId = Some (delete room socketId)
          /\ Rooms.roomPasswords s' = Rooms.roomPasswords s.
Proof.
  intros ND1 ND2 R. cbv zeta. unfold room_disconnect. rewrite R.
  destruct (size (delete room socketId) =? 0)%nat; simpl.
  - split; [reflexivity|]. unfold get_room. simpl.
    rewrite get_delete_same by now apply NoDup_keys_set.
    split; [reflexivity|]. now apply get_delete_same.
  - split; [reflexivity|]. split; [apply get_set_same | reflexivity].
Qed.

Section RoomPost.
Context {H : Host}.

(** X18. In the older server [POST /rooms] never removes a password or a
    member: sent without a password for a room that has one, it answers
    [hasPassword: false], the room keeps its password and its members, and
    [GET /rooms/:roomId] goes on answering [hasPassword: true]. *)
Theorem post_rooms_keeps_password (roomId : jsstring) (d : nat) (s : Rooms.t)
    (roomPass : jsstring) (room : jsmap jsstring) :
  roomId <> [] ->
  get (Rooms.roomPasswords s) roomId = Some roomPass ->
  get (Rooms.rooms s) roomId = Some room ->
  post_rooms (Some roomId) None d s
  = (s, d,
     Respond 200 (JObj [("roomId", JStr roomId); ("hasPassword", JBool false)]))
  /\ get_room roomId s
     = Respond 200
         (JObj [("exists", JBool true);
                ("usersCount", JNum (num_of_nat (size room)));
                ("hasPassword", JBool true)]).
Proof.
  intros Hne Gp Gr. split.
  - unfold post_rooms. apply is_empty_false in Hne.
    rewrite (nonempty_id _ Hne). cbv zeta. simpl.
    unfold has. rewrite Gr. destruct s; reflexivity.
  - unfold get_room. rewrite Gr. unfold has. now rewrite Gp.
Qed.

End RoomPost.


(** * The further properties on concrete requests *)

Lemma demo_boot_keyed : keyed (Store.channels demo_boot).
Proof.
  split; vm_compute; repeat constructor; simpl; intuition discriminate.
Qed.


Lemma createChannel_appends_witness :
  exists ch st',
    @createChannel basicHost demo_duo_params (str "2024-01-02") demo_boot
    = Some (Returned ch, st')
    /\ getChannels st' = getChannels demo_boot ++ [ch]
    /\ Channel.id ch = str "duo"
    /\ synced st'.
Proof.
  destruct (@createChannel basicHost demo_duo_params (str "2024-01-02")
              demo_boot) as [[[ch|e] st']|] eqn:E;
    [|vm_compute in E; discriminate E|vm_compute in E; discriminate E].
  exists ch, st'. split; [reflexivity|].
  destruct (@createChannel_appends basicHost _ _ _ _ _ E)
    as (A & _ & _ & _ & Sy).
  split; [exact A|]. split; [|exact Sy].
  vm_compute in E. now injection E as <- _.
Defined.

Lemma updateChannel_unknown_witness :
  getChannel demo_boot (str "nowhere") = None
  /\ updateChannel (str "nowhere") (Patch.mk (Some (str "x")) None None)
       demo_boot
     = (Returned None, demo_boot).
Proof.
  split; [reflexivity|]. apply updateChannel_unknown. reflexivity.
Defined.

Lemma updateChannel_known_witness :
  let patch := Patch.mk (Some (str "  ")) (Some PInf) None in
  exists existing updated,
    getChannel demo_duo (str "duo") = Some existing
    /\ getChannel (snd (updateChannel (str "duo") patch demo_duo)) (str "duo")
       = Some updated
    /\ Channel.name updated = Channel.name existing
    /\ Channel.maxUsers updated = Channel.maxUsers existing
    /\ keys (Store.channels (snd (updateChannel (str "duo") patch demo_duo)))
       = keys (Store.channels demo_duo).
Proof.
  cbv zeta.
  destruct (getChannel demo_duo (str "duo")) as [existing|] eqn:G;
    [|vm_compute in G; discriminate G].
  destruct (updateChannel_known (str "duo")
              (Patch.mk (Some (str "  ")) (Some PInf) None) demo_duo
              existing G)
    as (updated & G' & Hk & _ & _ & _ & Hn & Hm & _).
  exists existing, updated. split; [reflexivity|]. split; [exact G'|].
  split; [exact Hn|]. split; [exact Hm | exact Hk].
Defined.

Lemma updateChannel_password_witness :
  let patch := Patch.mk None None (Some (Some (str "new"))) in
  exists existing updated,
    getChannel demo_duo (str "duo") = Some existing
    /\ getChannel (snd (updateChannel (str "duo") patch demo_duo)) (str "duo")
       = Some updated
    /\ Channel.passwordHash updated = Some (str "new")
    /\ wrongPassword updated (Some (str "new")) = false
    /\ wrongPassword updated (Some (str "pw")) = true.
Proof.
  cbv zeta.
  destruct (getChannel demo_duo (str "duo")) as [existing|] eqn:G;
    [|vm_compute in G; discriminate G].
  destruct (updateChannel_password (str "duo")
              (Patch.mk None None (Some (Some (str "new")))) demo_duo
              existing G)
    as (updated & G' & _ & Hh & Hw).
  exists existing, updated. split; [reflexivity|]. split; [exact G'|].
  split; [exact Hh|]. split.
  - apply Hw. now right.
  - destruct (wrongPassword updated (Some (str "pw"))) eqn:W; [reflexivity|].
    apply Hw in W. destruct W as [W|W]; vm_compute in W; discriminate W.
Defined.

Lemma secret_kept_consistent_witness :
  let calls :=
    [Create demo_duo_params (str "t1");
     Update (str "coop") (Patch.mk None None (Some (Some (str "s3cret"))));
     Update (str "duo") (Patch.mk None None (Some None))] in
  exists st' coop duo,
    Forall secret_consistent (getChannels demo_boot)
    /\ @execAll basicHost demo_boot calls = Some st'
    /\ getChannel st' (str "coop") = Some coop
    /\ getChannel st' (str "duo") = Some duo
    /\ secret_consistent coop /\ secret_consistent duo.
Proof.
  cbv zeta.
  assert (F : Forall secret_consistent (getChannels demo_boot))
    by (vm_compute; repeat constructor; discriminate).
  destruct (@execAll basicHost demo_boot
              [Create demo_duo_params (str "t1");
               Update (str "coop")
                 (Patch.mk None None (Some (Some (str "s3cret"))));
               Update (str "duo") (Patch.mk None None (Some None))])
    as [st'|] eqn:E; [|vm_compute in E; discriminate E].
  destruct (getChannel st' (str "coop")) as [coop|] eqn:G1.
  2:{ vm_compute in E. injection E as <-. vm_compute in G1. discriminate G1. }
  destruct (getChannel st' (str "duo")) as [duo|] eqn:G2.
  2:{ vm_compute in E. injection E as <-. vm_compute in G2. discriminate G2. }
  exists st', coop, duo. split; [exact F|]. split; [reflexivity|].
  split; [exact G1|]. split; [exact G2|].
  assert (I : forall id ch, getChannel st' id = Some ch -> In ch (getChannels st')).
  { intros id ch G. unfold getChannel in G. apply get_In in G.
    unfold getChannels, values. apply in_map_iff. now exists (of_string id, ch). }
  split.
  - exact (proj1 (@secret_kept_consistent basicHost _ _ _ coop F E (I _ _ G1))).
  - exact (proj1 (@secret_kept_consistent basicHost _ _ _ duo F E (I _ _ G2))).
Defined.


Lemma load_seeds_registry_witness :
  exists o st,
    @loadChannelsFromDisk basicHost (str "2024-01-01")
      (fresh true (Some Unparsable) true 0) = Some (o, st)
    /\ o = Returned tt
    /\ map Channel.id (getChannels st) = [str "general"]
    /\ synced st.
Proof.
  destruct (@load_seeds_registry basicHost (str "2024-01-01") true true
              (Some Unparsable) 0)
    as (o & st & L & Ho & Sy & Hids & _).
  - vm_compute. discriminate.
  - now right.
  - exists o, st. repeat split; auto; apply Sy.
Defined.

Lemma occupancy_within_capacity_witness :
  let join s :=
    EvJoin (str s) (str "t") (demo_join "duo" s (Some (str "pw"))) in
  let es := [join "a"; join "b"; EvDisconnect (str "a"); join "c"; join "d"] in
  exists ch,
    getChannel demo_duo (str "duo") = Some ch
    /\ effectiveMaxUsers demo_cfg ch = num_of_Z 1
    /\ (Z.of_nat (size (membersOf (run demo_cfg demo_duo no_presence es)
                          (str "duo"))) <= 1)%Z.
Proof.
  cbv zeta.
  destruct (getChannel demo_duo (str "duo")) as [ch|] eqn:G;
    [|vm_compute in G; discriminate G].
  assert (E : effectiveMaxUsers demo_cfg ch = num_of_Z 1)
    by (vm_compute in G; injection G as <-; reflexivity).
  exists ch. split; [reflexivity|]. split; [exact E|].
  exact (occupancy_within_capacity demo_cfg demo_duo _ (str "duo") ch 1 G E).
Defined.

Lemma disconnect_removes_witness :
  presence_nodup demo_coop_one
  /\ reverse_map_sound demo_coop_one
  /\ get (Presence.socketChannelMap demo_coop_one) (str "socket-1")
     = Some (str "coop")
  /\ has (membersOf (fst (disconnect (str "socket-1") demo_boot demo_coop_one))
            (str "coop")) (str "socket-1") = false
  /\ get (Presence.socketChannelMap
            (fst (disconnect (str "socket-1") demo_boot demo_coop_one)))
       (str "socket-1") = None.
Proof.
  assert (K : presence_nodup demo_coop_one).
  { vm_compute. repeat split; repeat constructor; simpl; intuition. }
  assert (R : reverse_map_sound demo_coop_one).
  { apply (run_reverse_map demo_cfg demo_boot
             [EvJoin (str "socket-1") (str "2024-01-03")
                (demo_join "coop" "Ann" None)] no_presence).
    apply reverse_map_sound_empty. }
  split; [exact K|]. split; [exact R|]. split; [reflexivity|].
  pose proof (disconnect_removes (str "socket-1") demo_boot demo_coop_one K R)
    as D.
  change (get (Presence.socketChannelMap demo_coop_one) (str "socket-1"))
    with (Some (str "coop")) in D.
  cbv zeta in D. destruct D as (_ & D1 & D2 & _). split; [exact D2 | exact D1].
Defined.

Lemma join_then_disconnect_witness :
  let payload := demo_join "coop" "Bob" None in
  let p1 :=
    fst (join_room demo_cfg (str "socket-2") (str "t") payload demo_boot
           demo_coop_one) in
  let p2 := fst (disconnect (str "socket-2") demo_boot p1) in
  has (membersOf p1 (str "coop")) (str "socket-2") = true
  /\ Presence.socketChannelMap p2 = Presence.socketChannelMap demo_coop_one
  /\ buildChannelsState demo_boot p2 = buildChannelsState demo_boot demo_coop_one.
Proof.
  cbv zeta. split; [vm_compute; reflexivity|].
  destruct (getChannel demo_boot (str "coop")) as [channel|] eqn:G;
    [|vm_compute in G; discriminate G].
  assert (K : presence_nodup demo_coop_one).
  { vm_compute. repeat split; repeat constructor; simpl; intuition. }
  destruct (join_then_disconnect demo_cfg (str "socket-2") (str "t")
              (demo_join "coop" "Bob" None) demo_boot demo_coop_one channel K)
    as (_ & S & B).
  - reflexivity.
  - reflexivity.
  - vm_compute. discriminate.
  - exact G.
  - vm_compute in G. injection G as <-. reflexivity.
  - vm_compute in G. injection G as <-. reflexivity.
  - split; [exact S | exact B].
Defined.


Lemma room_join_password_first_witness :
  let s :=
    Rooms.mk [(str "r1", [(str "a", str "Ann")])] [(str "r1", str "pw")] in
  let cfg := Config.mk (num_of_Z 3000) (num_of_Z 1) [str "*"] in
  let payload := demo_join "r1" "Bob" (Some (str "nope")) in
  nonempty (JoinPayload.roomId payload) = Some (str "r1")
  /\ num_ge (num_of_nat 1) (Config.maxRoomUsers cfg) = true
  /\ snd (room_join cfg (str "b") payload s)
     = [join_error (str "b") "WRONG_PASSWORD"].
Proof.
  cbv zeta. split; [reflexivity|]. split; [reflexivity|].
  destruct (room_join_password_first
              (Config.mk (num_of_Z 3000) (num_of_Z 1) [str "*"]) (str "b")
              (demo_join "r1" "Bob" (Some (str "nope")))
              (Rooms.mk [(str "r1", [(str "a", str "Ann")])]
                 [(str "r1", str "pw")])
              (str "r1") eq_refl) as (W & _).
  apply (W (str "pw")); [reflexivity | discriminate | discriminate].
Defined.

Lemma room_disconnect_forgets_witness :
  let s :=
    Rooms.mk [(str "r1", [(str "a", str "Ann")])] [(str "r1", str "pw")] in
  roomOf (str "a") (Rooms.rooms s) = Some (str "r1", [(str "a", str "Ann")])
  /\ get_room (str "r1") (fst (room_disconnect (str "a") s))
     = Respond 404 (JObj [("exists", JBool false)])
  /\ get (Rooms.roomPasswords (fst (room_disconnect (str "a") s))) (str "r1")
     = None.
Proof.
  cbv zeta. split; [reflexivity|].
  refine (proj2 (room_disconnect_forgets (str "a")
                   (Rooms.mk [(str "r1", [(str "a", str "Ann")])]
                      [(str "r1", str "pw")])
                   (str "r1") [(str "a", str "Ann")] _ _ eq_refl)).
  - repeat constructor. simpl. tauto.
  - repeat constructor. simpl. tauto.
Defined.

Lemma post_rooms_keeps_password_witness :
  let s :=
    Rooms.mk [(str "r1", [(str "a", str "Ann")])] [(str "r1", str "pw")] in
  @post_rooms basicHost (Some (str "r1")) None 0 s
  = (s, 0,
     Respond 200
       (JObj [("roomId", JStr (str "r1")); ("hasPassword", JBool false)]))
  /\ get_room (str "r1") s
     = Respond 200
         (JObj [("exists", JBool true);
                ("usersCount", JNum (num_of_nat 1));
                ("hasPassword", JBool true)]).
Proof.
  cbv zeta.
  apply (@post_rooms_keeps_password basicHost (str "r1") 0 _ (str "pw")
           [(str "a", str "Ann")]); [discriminate | reflexivity | reflexivity].
Defined.


Section PostChannels.
Context {H : Host}.

(** X19. [POST /channels] with a usable name on a writable file system
    creates the channel, broadcasts the snapshot, which is the former
    snapshot followed by the entry of the new channel, and then answers 201
    with the public view of the channel: no secret, nobody online. *)
Theorem post_channels_created (body : CreateParams.t) (now : jsstring)
    (st : Store.t) (p : Presence.t) :
  trim (or_empty (CreateParams.name body)) <> [] ->
  Store.writable st = true ->
  exists ch st',
    createChannel body now st = Some (Returned ch, st')
    /\ post_channels body now st p
       = Some ([Emit All "channels-state" (JArr (buildChannelsState st' p));
                Respond 201 (publicChannel ch [])], st')
    /\ buildChannelsState st' p
       = buildChannelsState st p
         ++ [publicChannel ch
               (onlineUsersOf (get (Presence.channelMembers p) (Channel.id ch)))]
    /\ keys_of (publicChannel ch [])
       = ["id"; "name"; "maxUsers"; "hasPassword"; "onlineCount"; "onlineUsers"]
    /\ prop (publicChannel ch []) "onlineCount" = Some (JNum (num_of_nat 0)).
Proof.
  intros Hname W.
  destruct (createChannel_spec body now st Hname) as (id & d & Hf & _ & Hc).
  cbv zeta in Hc. rewrite save_writable in Hc by exact W.
  eexists _, _. split; [exact Hc|]. unfold post_channels. rewrite Hc.
  split; [reflexivity|]. split; [|split; reflexivity].
  unfold buildChannelsState, getChannels, values. cbn [Store.channels].
  cbn [with_draws with_channels Store.channels].
  rewrite set_fresh by exact Hf. now rewrite !map_app.
Qed.

End PostChannels.

Lemma post_channels_created_witness :
  exists ch st',
    @createChannel basicHost demo_duo_params (str "2024-01-02") demo_boot
    = Some (Returned ch, st')
    /\ @post_channels basicHost demo_duo_params (str "2024-01-02") demo_boot
         demo_coop_one
       = Some ([Emit All "channels-state"
                  (JArr (buildChannelsState st' demo_coop_one));
                Respond 201 (publicChannel ch [])], st')
    /\ List.length (buildChannelsState st' demo_coop_one) = 4.
Proof.
  destruct (@post_channels_created basicHost demo_duo_params (str "2024-01-02")
              demo_boot demo_coop_one)
    as (ch & st' & E & P & B & _).
  - vm_compute. discriminate.
  - reflexivity.
  - exists ch, st'. split; [exact E|]. split; [exact P|].
    rewrite B, length_app. reflexivity.
Defined.


(** * Free ids, and what the loader and a failed write can lose *)

Lemma ids_set_present (m : registry) (k : jsstring) (v e : Channel.t) :
  get m k = Some e -> Channel.id v = Channel.id e ->
  map Channel.id (values (set m k v)) = map Channel.id (values m).
Proof.
  unfold values. induction m as [|[k' v'] m IH]; simpl; [discriminate|].
  destruct (sameValueZero k' (KStr k)) eqn:E; simpl.
  - intros [= ->] ->. reflexivity.
  - intros G Hv. now rewrite IH.
Qed.

Lemma keyed_NoDup_ids (chs : registry) :
  keyed chs -> NoDup (map Channel.id (values chs)).
Proof.
  intros K. apply (NoDup_map_inv (@of_string key _)).
  rewrite keyed_ids by exact K. apply K.
Qed.

Section FreeIds.
Context {H : Host}.

Lemma exec_ids (c : call) (st : Store.t) :
  keyed (Store.channels st) ->
  exists st' new,
    exec st c = Some st'
    /\ keyed (Store.channels st')
    /\ map Channel.id (getChannels st') = map Channel.id (getChannels st) ++ new
    /\ List.length new = if adds c then 1 else 0.
Proof.
  intros K. destruct (exec_keyed c st K) as (st' & E & K').
  exists st'. destruct c as [params now|id patch|b]; simpl in *.
  - assert (Hcase : trim (or_empty (CreateParams.name params)) = []
                    \/ trim (or_empty (CreateParams.name params)) <> [])
      by (destruct (trim _); [now left | right; discriminate]).
    destruct Hcase as [N|N].
    + exists []. split; [exact E|]. split; [exact K'|].
      rewrite N. unfold createChannel in E. rewrite N in E.
      simpl in E. injection E as <-. rewrite app_nil_r. split; reflexivity.
    + destruct (createChannel_spec params now st N) as (id & d & Hf & _ & Hc).
      cbv zeta in Hc.
      exists [id]. split; [exact E|]. split; [exact K'|].
      rewrite Hc in E. clear Hc.
      apply is_empty_false in N. rewrite N. split; [|reflexivity].
      revert E.
      match goal with
      | |- context [saveChannelsToDisk ?s] =>
          pose proof (save_channels s) as S;
          destruct (saveChannelsToDisk s) as [[u|e] st2]
      end; simpl in *; intros [= <-]; unfold getChannels; rewrite S;
        rewrite set_fresh by exact Hf; rewrite values_app, map_app;
        reflexivity.
  - exists []. split; [exact E|]. split; [exact K'|].
    rewrite app_nil_r. split; [|reflexivity]. injection E as <-.
    destruct (get (Store.channels st) id) as [existing|] eqn:G.
    2:{ unfold updateChannel. now rewrite G. }
    destruct (updateChannel_found id patch st existing G)
      as (updated & H1 & _ & _ & _ & _ & Hu).
    rewrite Hu.
    match goal with
    | |- context [saveChannelsToDisk ?s] =>
        pose proof (save_channels s) as S;
        destruct (saveChannelsToDisk s) as [[u|e] st2]
    end; simpl in *; unfold getChannels; rewrite S;
      apply (ids_set_present _ _ _ existing); auto;
      rewrite H1; reflexivity.
  - exists []. split; [exact E|]. split; [exact K'|].
    injection E as <-. rewrite app_nil_r. split; reflexivity.
Qed.

(** X20. From a registry that has every channel under its own id (the
    seeds; what [load_keyed] gives on a file whose ids are strings), every
    run of calls returns, whatever the names, the random numbers drawn and
    the outcome of the writes. The ids that were there stay where they
    were, every create call with a name adds one id at the end, and no id
    occurs twice: each new channel got an id that no channel had. *)
Theorem run_gives_free_ids (st : Store.t) (calls : list call) :
  keyed (Store.channels st) ->
  exists st' added,
    execAll st calls = Some st'
    /\ map Channel.id (getChannels st')
       = map Channel.id (getChannels st) ++ added
    /\ List.length added = List.length (filter adds calls)
    /\ NoDup (map Channel.id (getChannels st')).
Proof.
  revert st. induction calls as [|c cs IH]; intros st K.
  - exists st, []. simpl. rewrite app_nil_r.
    repeat split; auto. now apply keyed_NoDup_ids.
  - destruct (exec_ids c st K) as (st1 & new & E1 & K1 & I1 & L1).
    destruct (IH st1 K1) as (st' & added & E & I & L & ND).
    exists st', (new ++ added). simpl. rewrite E1.
    split; [exact E|]. split; [now rewrite I, I1, app_assoc|].
    split; [|exact ND].
    rewrite length_app, L, L1. destruct (adds c); reflexivity.
Qed.

End FreeIds.

Section LoaderCatch.
Context {H : Host}.

(** Whether an entry makes a conversion throw does not depend on the map. *)
Lemma loadEntry_throws (now : jsstring) (chs chs' : registry) (ch : json) :
  loadEntry now chs ch = None -> loadEntry now chs' ch = None.
Proof.
  unfold loadEntry.
  destruct (truthy (Some ch) && truthy (prop ch "id")
            && truthy (prop ch "name")); [|discriminate].
  destruct (prop ch "id") as [id|]; [|discriminate].
  destruct (prop ch "name") as [nm|]; [|discriminate].
  destruct (String_json id); [|reflexivity].
  destruct (String_json nm); [|reflexivity].
  destruct (Number_json _); [|reflexivity].
  match goal with
  | |- match ?a with _ => _ end = _ -> _ => destruct a
  end; [discriminate | reflexivity].
Qed.

Lemma loadEntries_throws (now : jsstring) (parsed : list json) (ch : json)
    (chs : registry) :
  In ch parsed -> loadEntry now [] ch = None ->
  loadEntries now chs parsed = None.
Proof.
  intros Hin T. revert chs.
  induction parsed as [|x rest IH]; intros chs; simpl; [contradiction|].
  destruct Hin as [->|Hin].
  - now rewrite (loadEntry_throws now [] chs ch T).
  - destruct (loadEntry now chs x); auto.
Qed.

(** X21. One entry of the file whose name is an object with a property
    [toString] makes [String] throw in the middle of the load: the loader
    drops the channels it has taken from the file so far and those it had,
    keeps the single channel [general], and writes the file anew with that
    channel alone when the file system lets it. *)
Theorem throwing_entry_reseeds (now : jsstring) (st : Store.t)
    (parsed : list json) (ch : json) (fields : list (string * json)) :
  Store.dataDir st = true ->
  Store.channelsFile st = Some (Parsed (JArr parsed)) ->
  In ch parsed ->
  truthy (prop ch "id") = true ->
  prop ch "name" = Some (JObj fields) ->
  lookup fields "toString" <> None ->
  exists o st',
    loadChannelsFromDisk now st = Some (o, st')
    /\ map Channel.id (getChannels st') = [str "general"]
    /\ (if Store.writable st
        then o = Returned tt
             /\ Store.channelsFile st'
                = Some (Parsed (JArr [json_of_channel
                                        (seed now (str "general")
                                           [1054; 1073; 1097; 1080; 1081]%N)]))
        else o = Threw FsError).
Proof.
  intros D F Hin Ti Hn Hts.
  assert (T : loadEntry now [] ch = None).
  { unfold loadEntry. rewrite Ti, Hn.
    assert (Tc : truthy (Some ch) = true)
      by (destruct ch; try discriminate Hn; reflexivity).
    rewrite Tc. cbn [andb truthy].
    destruct (prop ch "id") as [id|]; [|discriminate Ti].
    cbn [String_json].
    destruct (lookup fields "toString"); [|now elim Hts].
    destruct (String_json id); reflexivity. }
  unfold loadChannelsFromDisk, ensureDataDir. rewrite D, F.
  rewrite (loadEntries_throws now parsed ch _ Hin T).
  unfold reseed.
  match goal with
  | |- context [saveChannelsToDisk ?s] =>
      pose proof (save_channels s) as S; pose proof (save_outcome s) as O;
      destruct (saveChannelsToDisk s) as [o st'] eqn:E
  end.
  exists o, st'. split; [reflexivity|]. simpl in S, O.
  unfold getChannels. rewrite S. split; [reflexivity|].
  destruct O as [(W & -> & _ & Sy)|(W & -> & _)]; rewrite W;
    [|reflexivity].
  split; [reflexivity|]. unfold getChannels in Sy. now rewrite S in Sy.
Qed.

Lemma save_cut (st : Store.t) :
  Store.dataDir st = true -> Store.writable st = false ->
  Store.truncates st = true ->
  saveChannelsToDisk st = (Threw FsError, with_file st (Some Unparsable)).
Proof.
  intros D W T. unfold saveChannelsToDisk, ensureDataDir.
  now rewrite D, W, T.
Qed.

(** X22. A [createChannel] whose write fails after the file was opened
    throws and leaves a file that does not parse; the next process to start
    on it finds none of the channels that were on file, and seeds
    [general]. *)
Theorem cut_file_reseeds (params : CreateParams.t) (now now' : jsstring)
    (st : Store.t) :
  trim (or_empty (CreateParams.name params)) <> [] ->
  Store.dataDir st = true ->
  Store.writable st = false ->
  Store.truncates st = true ->
  exists st',
    createChannel params now st = Some (Threw FsError, st')
    /\ Store.channelsFile st' = Some Unparsable
    /\ forall truncates draws,
       exists st2,
         loadChannelsFromDisk now'
           (fresh_on truncates true (Store.channelsFile st') true draws)
         = Some (Returned tt, st2)
         /\ map Channel.id (getChannels st2) = [str "general"].
Proof.
  intros Hname D W T.
  destruct (createChannel_spec params now st Hname) as (id & d & _ & _ & Hc).
  cbv zeta in Hc. rewrite save_cut in Hc by assumption.
  eexists. split; [exact Hc|]. split; [reflexivity|].
  intros truncates draws. eexists. split; reflexivity.
Qed.

End LoaderCatch.

Lemma run_gives_free_ids_witness :
  let calls :=
    [Create (CreateParams.mk (Some (str "General")) None None) (str "t1");
     Writable false;
     Create (CreateParams.mk (Some (str "GENERAL!")) None None) (str "t2");
     Update (str "general") (Patch.mk (Some (str "coop")) None None);
     Create (CreateParams.mk (Some (str "  ")) None None) (str "t3");
     Create (CreateParams.mk (Some (str "coop")) None None) (str "t4")] in
  exists st' added,
    @execAll basicHost demo_boot calls = Some st'
    /\ map Channel.id (getChannels st')
       = [str "dota 2"; str "coop"; str "squad"] ++ added
    /\ List.length added = 3
    /\ NoDup (map Channel.id (getChannels st')).
Proof.
  cbv zeta. apply (@run_gives_free_ids basicHost demo_boot).
  exact demo_boot_keyed.
Defined.

Lemma throwing_entry_reseeds_witness :
  let good := JObj [("id", JStr (str "a")); ("name", JStr (str "x"))] in
  let bad :=
    JObj [("id", JStr (str "b"));
          ("name", JObj [("toString", JNum (num_of_Z 1))])] in
  exists st',
    @loadChannelsFromDisk basicHost (str "2024-01-01")
      (fresh true (Some (Parsed (JArr [good; bad]))) true 0)
    = Some (Returned tt, st')
    /\ map Channel.id (getChannels st') = [str "general"].
Proof.
  cbv zeta.
  destruct (@throwing_entry_reseeds basicHost (str "2024-01-01")
              (fresh true
                 (Some (Parsed
                    (JArr [JObj [("id", JStr (str "a"));
                                 ("name", JStr (str "x"))];
                           JObj [("id", JStr (str "b"));
                                 ("name",
                                  JObj [("toString", JNum (num_of_Z 1))])]])))
                 true 0)
              _ _ [("toString", JNum (num_of_Z 1))]
              eq_refl eq_refl (or_intror (or_introl eq_refl)) eq_refl eq_refl)
    as (o & st' & L & I & W).
  - discriminate.
  - simpl in W. destruct W as [-> _]. exists st'. split; [exact L | exact I].
Defined.

Lemma cut_file_reseeds_witness :
  let st :=
    {| Store.channels := Store.channels demo_boot;
       Store.dataDir := true;
       Store.channelsFile := Store.channelsFile demo_boot;
       Store.writable := false;
       Store.draws := 0;
       Store.truncates := true |} in
  exists st' st2,
    @createChannel basicHost (CreateParams.mk (Some (str "General")) None None)
      (str "2024-01-02") st = Some (Threw FsError, st')
    /\ List.length (getChannels st') = 4
    /\ @loadChannelsFromDisk basicHost (str "2024-01-03")
         (fresh true (Store.channelsFile st') true 0)
       = Some (Returned tt, st2)
    /\ map Channel.id (getChannels st2) = [str "general"].
Proof.
  cbv zeta.
  destruct (@cut_file_reseeds basicHost
              (CreateParams.mk (Some (str "General")) None None)
              (str "2024-01-02") (str "2024-01-03")
              {| Store.channels := Store.channels demo_boot;
                 Store.dataDir := true;
                 Store.channelsFile := Store.channelsFile demo_boot;
                 Store.writable := false;
                 Store.draws := 0;
                 Store.truncates := true |})
    as (st' & E & _ & R);
    [vm_compute; discriminate | reflexivity | reflexivity | reflexivity |].
  destruct (R false 0) as (st2 & L & I).
  exists st', st2. split; [exact E|]. split; [|split; [exact L | exact I]].
  vm_compute in E. now injection E as <-.
Defined.
